(** * A shallow embedding of the chat relay [server.js]

    The server keeps two process-wide tables, [rooms] and
    [socketToUserMap], and registers six socket.io handlers
    ([check_room], [join_room], [send_message], [typing], [leave_room],
    [disconnect]).  Each handler is embedded as a function from the
    tables to an [Outcome]: the tables it leaves behind and the ordered
    trace of transport calls it made, or the point where it threw.

    Conventions of the embedding:
    - a JS string is a [string] whose characters are UTF-16 code units in
      the range 0..255; code units above 255, and with them the
      characters whose lower-casing changes the length of a string, are
      outside the embedding;
    - every event arrives with its payload object and, for [check_room],
      its callback; a field of the payload is an [option string], [None]
      being [undefined], and a room name, when given, is a string;
    - [leave_room] is embedded a second time, as [leave_room_value],
      over room ids that may be arrays of strings, which index [rooms]
      by their string form and differ from every string;
    - a socket id is a string made up by the transport, never a name of
      [Object.prototype], so [socketToUserMap] is read by own
      properties;
    - [Date.now()] and [toLocaleTimeString()] are read from an [Env]
      supplied with every event;
    - [console.log] is not modelled. *)

From Stdlib Require Import Ascii String.
From stdpp Require Import gmap strings list fin_maps.

#[local] Set Warnings "-clear-no-such-hyp".

(** ** JavaScript strings *)

Module Js.

(** ECMAScript [WhiteSpace] and [LineTerminator] code units below 256:
    TAB, LF, VT, FF, CR, SP and NBSP. *)
Definition isWhiteSpace (c : ascii) : bool :=
  let n := N_of_ascii c in
  ((9 <=? n) && (n <=? 13) || (n =? 32) || (n =? 160))%N.

Fixpoint trimStart (s : string) : string :=
  match s with
  | String c s' => if isWhiteSpace c then trimStart s' else s
  | EmptyString => EmptyString
  end.

Definition trimEnd (s : string) : string :=
  String.rev (trimStart (String.rev s)).

(** [String.prototype.trim] *)
Definition trim (s : string) : string := trimEnd (trimStart s).

(** Lower-casing of one code unit below 256: A-Z and the Latin-1
    capitals U+00C0..U+00DE (U+00D7 is the multiplication sign). *)
Definition lowerChar (c : ascii) : ascii :=
  let n := N_of_ascii c in
  if ((65 <=? n) && (n <=? 90) ||
      (192 <=? n) && (n <=? 222) && negb (n =? 215))%N
  then ascii_of_N (n + 32) else c.

(** [String.prototype.toLowerCase] *)
Fixpoint toLowerCase (s : string) : string :=
  match s with
  | String c s' => String (lowerChar c) (toLowerCase s')
  | EmptyString => EmptyString
  end.

(** The regular expression class [\d]. *)
Definition isDigit (c : ascii) : bool :=
  let n := N_of_ascii c in ((48 <=? n) && (n <=? 57))%N.

(** [(s.match(re) || []).length] for a global one-character class
    [re]: the number of characters of [s] in the class. *)
Fixpoint matchCount (cls : ascii → bool) (s : string) : nat :=
  match s with
  | String c s' => (if cls c then 1 else 0) + matchCount cls s'
  | EmptyString => 0
  end.

(** [re.test(s)] for a one-character class [re]. *)
Fixpoint test (cls : ascii → bool) (s : string) : bool :=
  match s with
  | String c s' => cls c || test cls s'
  | EmptyString => false
  end.

(** Truthiness of a string-valued optional field. *)
Definition truthy (v : option string) : bool :=
  match v with
  | Some s => negb (String.eqb s "")
  | None => false
  end.

(** The names every plain object inherits from [Object.prototype]. *)
Definition objectPrototypeKeys : list string :=
  [ "constructor"; "__defineGetter__"; "__defineSetter__";
    "hasOwnProperty"; "__lookupGetter__"; "__lookupSetter__";
    "isPrototypeOf"; "propertyIsEnumerable"; "toString"; "valueOf";
    "__proto__"; "toLocaleString" ].

End Js.

(** ** [validateUsername] *)

(** The character class of [specialCharRegex]: the characters listed
    between its brackets.  The double quote is character 34 and
    is appended by code. *)
Definition specialChars : list ascii :=
  list_ascii_of_string "!@#$%^&*()_+-=[]{};':\|,.<>?`~" ++ [ascii_of_nat 34].

Definition isSpecialChar (c : ascii) : bool :=
  bool_decide (c ∈ specialChars).

Definition validateUsername (username : string) : option string :=
  if String.length username <? 5 then
    Some "Username must be at least 5 characters long."
  else
    let numberCount := Js.matchCount Js.isDigit username in
    if numberCount <? 2 then
      Some "Username must contain at least 2 numbers."
    else if negb (Js.test isSpecialChar username) then
      Some "Username must contain at least 1 special character (e.g., !@#$%)."
    else None.

(** ** Plain objects used as dictionaries

    [rooms[room].users] is enumerated with [Object.keys] and
    [Object.values], so the order of its properties matters: a plain
    object lists its string-named properties in insertion order.  It is
    an association list with at most one entry per key; [set] keeps the
    position of a key that is already present and appends a new one. *)

Module Obj.

Fixpoint get {V} (k : string) (o : list (string * V)) : option V :=
  match o with
  | [] => None
  | (k', v) :: o' => if decide (k = k') then Some v else get k o'
  end.

Fixpoint set {V} (k : string) (v : V) (o : list (string * V)) :
    list (string * V) :=
  match o with
  | [] => [(k, v)]
  | (k', v') :: o' =>
      if decide (k = k') then (k, v) :: o' else (k', v') :: set k v o'
  end.

Fixpoint delete {V} (k : string) (o : list (string * V)) :
    list (string * V) :=
  match o with
  | [] => []
  | (k', v') :: o' =>
      if decide (k = k') then delete k o' else (k', v') :: delete k o'
  end.

Definition keys {V} (o : list (string * V)) : list string := o.*1.
Definition values {V} (o : list (string * V)) : list V := o.*2.

End Obj.

(** ** Data model *)

(** [{ socketId, username }], a value of [rooms[room].users]. *)
Record Member := { socketId : string; member_username : string }.

(** [{ username, room }], a value of [socketToUserMap]. *)
Record UserInfo := { ui_username : string; ui_room : string }.

(** The [messageData] object a client sends; the handler reads its
    [username], [message] and [time] properties. *)
Record MessageData := {
  md_username : option string;
  md_message : option string;
  md_time : option string
}.

(** [{ ...messageData, userId: socket.id, messageId }] *)
Record FullMessageData := {
  data : MessageData;
  userId : string;
  messageId : string
}.

(** [{ message, time, messageId, type: 'system' }] *)
Record SystemMessageData := {
  message : string;
  time : string;
  sys_messageId : string
}.

Inductive Message :=
| Chat (m : FullMessageData)
| System (m : SystemMessageData).

(** [{ users: {}, messages: [] }] *)
Record Room := {
  users : list (string * Member);
  messages : list Message
}.

Definition emptyRoom : Room := {| users := []; messages := [] |}.

Record State := {
  rooms : gmap string Room;
  socketToUserMap : gmap string UserInfo
}.

(** The tables as the module initialises them. *)
Definition init : State :=
  {| rooms := {[ "public" := emptyRoom ]}; socketToUserMap := ∅ |}.

(** What [rooms[room]] evaluates to.  [rooms] is a plain object and the
    room name is chosen by the client, so the lookup can also find a
    property inherited from [Object.prototype]: a truthy value whose
    [users] and [messages] are [undefined]. *)
Inductive RoomRef :=
| Own (r : Room)
| Inherited
| Undefined.

Definition roomsGet (rs : gmap string Room) (room : string) : RoomRef :=
  match rs !! room with
  | Some r => Own r
  | None =>
      if bool_decide (room ∈ Js.objectPrototypeKeys) then Inherited
      else Undefined
  end.

(** ** Transport calls *)

(** Events the server emits, with their payloads.  A payload is the
    value of the emitted expression at the time of the call: the
    transport encodes the packet before [emit] returns, so a later
    [push] onto an emitted array does not show in it. *)
Inductive ServerEvent :=
| join_error (msg : string)
| chat_history (h : list Message)
| user_list (l : list Member)
| system_message (m : SystemMessageData)
| join_success
| receive_message (m : FullMessageData)
| user_typing (sid username : string).

(** The value handed to the [check_room] acknowledgement. *)
Inductive Ack :=
| ack_undefined
| ack_bool (b : bool).

(** One call on the transport: [socket.join(room)],
    [socket.leave(room)], [socket.emit(ev)], [io.to(room).emit(ev)],
    [socket.to(room).emit(ev)] and [callback(v)], each by the socket
    [sid] whose handler runs. *)
Inductive Action :=
| socket_join (sid room : string)
| socket_leave (sid room : string)
| socket_emit (sid : string) (ev : ServerEvent)
| io_to_emit (room : string) (ev : ServerEvent)
| socket_to_emit (sid room : string) (ev : ServerEvent)
| callback (sid : string) (v : Ack).

(** A handler returns, or throws a [TypeError] that nothing catches;
    both carry the tables and the calls made so far. *)
Inductive Outcome :=
| Returned (st : State) (tr : list Action)
| Thrown (st : State) (tr : list Action).

(** The clock readings of one event: [Date.now()] in decimal and
    [new Date().toLocaleTimeString()]. *)
Record Env := { now : string; localTime : string }.

(** ** The handlers *)

(** [roomId || 'public'] *)
Definition resolveRoom (roomId : option string) : string :=
  match roomId with
  | Some r => if Js.truthy roomId then r else "public"
  | None => "public"
  end.

Definition setMessages (r : Room) (ms : list Message) : Room :=
  {| users := users r; messages := ms |}.

Definition setUsers (r : Room) (us : list (string * Member)) : Room :=
  {| users := us; messages := messages r |}.

(** [socket.on('check_room', (roomId, callback) => ...)].  The
    acknowledgement function is taken to be supplied by the client.  On
    an inherited property [Object.keys(undefined)] throws. *)
Definition check_room (sid : string) (roomId : option string)
    (st : State) : Outcome :=
  let room := resolveRoom roomId in
  match roomsGet (rooms st) room with
  | Own r =>
      let roomExists := 0 <? length (Obj.keys (users r)) in
      Returned st [callback sid (ack_bool roomExists)]
  | Inherited => Thrown st []
  | Undefined => Returned st [callback sid ack_undefined]
  end.

(** [socket.on('join_room', ({ username, roomId }) => ...)].
    [username.trim()] throws when the field is missing; on an inherited
    property [rooms[room].users] is [undefined] and indexing it throws.
    A name that passed [validateUsername] holds two digits, so it is
    never a name of [Object.prototype] and [users[name]] is a lookup of
    own properties. *)
Definition join_room (sid : string) (env : Env)
    (username roomId : option string) (st : State) : Outcome :=
  let room := resolveRoom roomId in
  match username with
  | None => Thrown st []
  | Some username =>
    let standardizedUsername := Js.toLowerCase (Js.trim username) in
    match validateUsername standardizedUsername with
    | Some validationError =>
        Returned st [socket_emit sid (join_error validationError)]
    | None =>
      let found := roomsGet (rooms st) room in
      match found with
      | Inherited => Thrown st []
      | _ =>
        let taken :=
          match found with
          | Own r => bool_decide (is_Some (Obj.get standardizedUsername (users r)))
          | _ => false
          end in
        if taken then
          Returned st
            [socket_emit sid (join_error "Username already taken in this room.")]
        else
          let r0 := match found with Own r => r | _ => emptyRoom end in
          let r1 :=
            setUsers r0
              (Obj.set standardizedUsername
                 {| socketId := sid; member_username := standardizedUsername |}
                 (users r0)) in
          let map1 :=
            <[ sid := {| ui_username := standardizedUsername; ui_room := room |} ]>
              (socketToUserMap st) in
          let joinMessage := username +:+ " joined the chat" in
          let messageId := "system-" +:+ now env +:+ "-" +:+ sid in
          let systemMessageData :=
            {| message := joinMessage; time := localTime env;
               sys_messageId := messageId |} in
          let r2 := setMessages r1 (messages r1 ++ [System systemMessageData]) in
          Returned
            {| rooms := <[ room := r2 ]> (rooms st); socketToUserMap := map1 |}
            [ socket_join sid room;
              socket_emit sid (chat_history (messages r1));
              io_to_emit room (user_list (Obj.values (users r1)));
              io_to_emit room (system_message systemMessageData);
              socket_emit sid join_success ]
      end
    end
  end.

(** [socket.on('send_message', ({ messageData, roomId }) => ...)].
    [rooms[room].messages.push] throws when [rooms[room]] is
    [undefined] and when it is an inherited property. *)
Definition send_message (sid : string) (env : Env)
    (messageData : option MessageData) (roomId : option string)
    (st : State) : Outcome :=
  let room := resolveRoom roomId in
  match messageData with
  | Some md =>
    if Js.truthy (md_username md) && Js.truthy (md_message md)
       && Js.truthy (md_time md) then
      let messageId := now env +:+ "-" +:+ sid in
      let fullMessageData :=
        {| data := md; userId := sid; messageId := messageId |} in
      match roomsGet (rooms st) room with
      | Own r =>
          Returned
            {| rooms :=
                 <[ room := setMessages r (messages r ++ [Chat fullMessageData]) ]>
                   (rooms st);
               socketToUserMap := socketToUserMap st |}
            [io_to_emit room (receive_message fullMessageData)]
      | _ => Thrown st []
      end
    else Returned st []
  | None => Returned st []
  end.

(** [socket.on('typing', ({ roomId }) => ...)] *)
Definition typing (sid : string) (roomId : option string)
    (st : State) : Outcome :=
  let room := resolveRoom roomId in
  match socketToUserMap st !! sid, roomsGet (rooms st) room with
  | Some userInfo, (Own _ | Inherited) =>
      Returned st
        [socket_to_emit sid room (user_typing sid (ui_username userInfo))]
  | _, _ => Returned st []
  end.

(** The record both [leave_room] and [disconnect] append. *)
Definition leaveRecord (sid : string) (env : Env) (userInfo : UserInfo) :
    SystemMessageData :=
  {| message := ui_username userInfo +:+ " left the chat";
     time := localTime env;
     sys_messageId := "system-" +:+ now env +:+ "-" +:+ sid |}.

(** The tail shared by [leave_room] and [disconnect]: after
    [delete rooms[room].users[...]], the room [r] is written back, or
    dropped when it is empty and [room !== 'public']. *)
Definition cleanUp (room : string) (r : Room) (rs : gmap string Room) :
    gmap string Room :=
  if bool_decide (room ≠ "public") && (length (Obj.keys (users r)) =? 0)
  then delete room rs
  else <[ room := r ]> rs.

(** [socket.on('leave_room', ({ roomId }) => ...)] *)
Definition leave_room (sid : string) (env : Env) (roomId : option string)
    (st : State) : Outcome :=
  let room := resolveRoom roomId in
  match socketToUserMap st !! sid with
  | None => Returned st []
  | Some userInfo =>
    match roomsGet (rooms st) room with
    | Undefined => Returned st []
    | Inherited => Thrown st []
    | Own r =>
      match Obj.get (ui_username userInfo) (users r) with
      | None => Returned st []
      | Some _ =>
        let systemMessageData := leaveRecord sid env userInfo in
        let r1 := setMessages r (messages r ++ [System systemMessageData]) in
        let r2 := setUsers r1 (Obj.delete (ui_username userInfo) (users r1)) in
        Returned
          {| rooms := cleanUp room r2 (rooms st);
             socketToUserMap := delete sid (socketToUserMap st) |}
          [ io_to_emit room (system_message systemMessageData);
            socket_leave sid room;
            io_to_emit room (user_list (Obj.values (users r2))) ]
      end
    end
  end.

(** [socket.on('disconnect', () => ...)] *)
Definition disconnect (sid : string) (env : Env) (st : State) : Outcome :=
  match socketToUserMap st !! sid with
  | None => Returned st []
  | Some userInfo =>
    let room := ui_room userInfo in
    let map1 := delete sid (socketToUserMap st) in
    match roomsGet (rooms st) room with
    | Undefined => Returned {| rooms := rooms st; socketToUserMap := map1 |} []
    | Inherited => Thrown st []
    | Own r =>
      match Obj.get (ui_username userInfo) (users r) with
      | None => Returned {| rooms := rooms st; socketToUserMap := map1 |} []
      | Some _ =>
        let systemMessageData := leaveRecord sid env userInfo in
        let r1 := setMessages r (messages r ++ [System systemMessageData]) in
        let r2 := setUsers r1 (Obj.delete (ui_username userInfo) (users r1)) in
        Returned
          {| rooms := cleanUp room r2 (rooms st); socketToUserMap := map1 |}
          [ socket_to_emit sid room (system_message systemMessageData);
            io_to_emit room (user_list (Obj.values (users r2))) ]
      end
    end
  end.

(** ** The event loop *)

(** An inbound event with its payload. *)
Inductive Event :=
| EvCheckRoom (roomId : option string)
| EvJoinRoom (username roomId : option string)
| EvSendMessage (messageData : option MessageData) (roomId : option string)
| EvTyping (roomId : option string)
| EvLeaveRoom (roomId : option string)
| EvDisconnect.

Definition handle (sid : string) (env : Env) (ev : Event) (st : State) :
    Outcome :=
  match ev with
  | EvCheckRoom roomId => check_room sid roomId st
  | EvJoinRoom username roomId => join_room sid env username roomId st
  | EvSendMessage messageData roomId =>
      send_message sid env messageData roomId st
  | EvTyping roomId => typing sid roomId st
  | EvLeaveRoom roomId => leave_room sid env roomId st
  | EvDisconnect => disconnect sid env st
  end.

(** Events are processed one at a time; a handler that throws ends the
    process, so only returning handlers lead to a further state. *)
Inductive reachable : State → Prop :=
| reachable_init : reachable init
| reachable_step st sid env ev st' tr :
    reachable st →
    handle sid env ev st = Returned st' tr →
    reachable st'.

(** Processing a list of events from one state, stopping at a throw. *)
Fixpoint run (evs : list (string * Env * Event)) (st : State)
    (tr : list Action) : Outcome :=
  match evs with
  | [] => Returned st tr
  | (sid, env, ev) :: evs' =>
      match handle sid env ev st with
      | Returned st' tr' => run evs' st' (tr ++ tr')
      | Thrown st' tr' => Thrown st' (tr ++ tr')
      end
  end.

(** ** Delivery by the transport *)

(** Which sockets are in which transport room: the pairs
    [(sid, room)] put there by [socket.join] and not yet removed by
    [socket.leave]. *)
Definition adapterStep (ad : gset (string * string)) (a : Action) :
    gset (string * string) :=
  match a with
  | socket_join sid room => {[ (sid, room) ]} ∪ ad
  | socket_leave sid room => ad ∖ {[ (sid, room) ]}
  | _ => ad
  end.

(** The events one call delivers to socket [c]: [socket.emit] reaches
    the socket itself, [io.to(room)] every socket in the room,
    [socket.to(room)] every socket in the room but the caller. *)
Definition delivered (ad : gset (string * string)) (a : Action)
    (c : string) : list ServerEvent :=
  match a with
  | socket_emit sid ev => if decide (sid = c) then [ev] else []
  | io_to_emit room ev => if decide ((c, room) ∈ ad) then [ev] else []
  | socket_to_emit sid room ev =>
      if decide ((c, room) ∈ ad ∧ c ≠ sid) then [ev] else []
  | _ => []
  end.

(** What socket [c] receives, in order, from a trace of calls. *)
Fixpoint deliveries (ad : gset (string * string)) (tr : list Action)
    (c : string) : list ServerEvent :=
  match tr with
  | [] => []
  | a :: tr' => delivered ad a c ++ deliveries (adapterStep ad a) tr' c
  end.

(** ** Notions used by the properties *)

(** The stored history of a room; a room that is not there has none. *)
Definition history (st : State) (room : string) : list Message :=
  match rooms st !! room with
  | Some r => messages r
  | None => []
  end.

(** The transport rooms after a trace of calls. *)
Definition adapterRun (ad : gset (string * string)) (tr : list Action) :
    gset (string * string) :=
  foldl adapterStep ad tr.

(** Room membership and the reverse index agree: every member entry is
    indexed under its socket, and every index entry has its member
    entry, owned by that socket. *)
Definition membersIndexed (st : State) : Prop :=
  ∀ room r u m,
    rooms st !! room = Some r →
    Obj.get u (users r) = Some m →
    socketToUserMap st !! socketId m =
      Some {| ui_username := u; ui_room := room |}.

Definition indexHasMember (st : State) : Prop :=
  ∀ sid userInfo,
    socketToUserMap st !! sid = Some userInfo →
    ∃ r m,
      rooms st !! ui_room userInfo = Some r ∧
      Obj.get (ui_username userInfo) (users r) = Some m ∧
      socketId m = sid.

Definition consistent (st : State) : Prop :=
  membersIndexed st ∧ indexHasMember st.

(** The shape of the room table: the default room is there, no room is
    named by the empty string or by a name of [Object.prototype], and
    every other room has a member. *)
Definition roomsWellFormed (st : State) : Prop :=
  is_Some (rooms st !! "public") ∧
  ∀ room r,
    rooms st !! room = Some r →
    room ≠ "" ∧ (room ∉ Js.objectPrototypeKeys) ∧
    (room = "public" ∨ users r ≠ []).

(** The format rules in the words of the specification: the number of
    characters of a string that lie in a given set. *)
Definition decimalDigits : list ascii := list_ascii_of_string "0123456789".

Definition countIn (set : list ascii) (s : string) : nat :=
  length (filter (λ c, c ∈ set) (list_ascii_of_string s)).

Definition msgTooShort : string :=
  "Username must be at least 5 characters long.".
Definition msgFewDigits : string :=
  "Username must contain at least 2 numbers.".
Definition msgNoSpecial : string :=
  "Username must contain at least 1 special character (e.g., !@#$%).".
Definition msgTaken : string := "Username already taken in this room.".

(** [username.trim().toLowerCase()] *)
Definition standardize (username : string) : string :=
  Js.toLowerCase (Js.trim username).

(** The record a join of [raw] by [sid] appends. *)
Definition joinRecord (sid : string) (env : Env) (raw : string) :
    SystemMessageData :=
  {| message := raw +:+ " joined the chat"; time := localTime env;
     sys_messageId := "system-" +:+ now env +:+ "-" +:+ sid |}.

(** The room a join of [raw] by [sid] leaves behind, from the room [r0]
    it found (or the empty room it created). *)
Definition joinedRoom (sid : string) (env : Env) (raw : string) (r0 : Room) :
    Room :=
  {| users :=
       Obj.set (standardize raw)
         {| socketId := sid; member_username := standardize raw |} (users r0);
     messages := messages r0 ++ [System (joinRecord sid env raw)] |}.

(** The five transport calls of a join that goes through. *)
Definition joinTrace (sid : string) (env : Env) (raw room : string)
    (r0 : Room) : list Action :=
  [ socket_join sid room;
    socket_emit sid (chat_history (messages r0));
    io_to_emit room (user_list (Obj.values (users (joinedRoom sid env raw r0))));
    io_to_emit room (system_message (joinRecord sid env raw));
    socket_emit sid join_success ].

(** Sample clock readings and payloads for the closed examples. *)
Definition env0 : Env := {| now := "1700000000000"; localTime := "10:00:00 AM" |}.
Definition env1 : Env := {| now := "1700000000001"; localTime := "10:00:01 AM" |}.
Definition hello : MessageData :=
  {| md_username := Some "alice123!"; md_message := Some "hello";
     md_time := Some "10:00" |}.


(** The outcome of a returning handler, for the closed examples. *)
Definition stateOf (o : Outcome) : State :=
  match o with Returned st _ | Thrown st _ => st end.
Definition traceOf (o : Outcome) : list Action :=
  match o with Returned _ tr | Thrown _ tr => tr end.

(** [s1] has joined the room [team] as [alice123!]. *)
Definition aliceJoins : Outcome :=
  join_room "s1" env0 (Some "alice123!") (Some "team") init.

(** [s1] joins [team] and then, without leaving, joins [lobby] under
    another name. *)
Definition aliceRejoins : Outcome :=
  run [ ("s1", env0, EvJoinRoom (Some "alice123!") (Some "team"));
        ("s1", env1, EvJoinRoom (Some "bobby45#") (Some "lobby")) ]
      init [].

(** [s1] is in [team] and [s2] is in [lobby], both as [alice123!]. *)
Definition twoRooms : Outcome :=
  run [ ("s1", env0, EvJoinRoom (Some "alice123!") (Some "team"));
        ("s2", env0, EvJoinRoom (Some " Alice123! ") (Some "lobby")) ]
      init [].

(** [s1] joins [team] and leaves it again. *)
Definition aliceLeaves : Outcome :=
  run [ ("s1", env0, EvJoinRoom (Some "alice123!") (Some "team"));
        ("s1", env1, EvLeaveRoom (Some "team")) ]
      init [].

(** A room table in which the short name [bo1] is a member of the
    default room. *)
Definition squatted : State :=
  {| rooms :=
       {[ "public" :=
            {| users := [("bo1", {| socketId := "s9"; member_username := "bo1" |})];
               messages := [] |} ]};
     socketToUserMap := {[ "s9" := {| ui_username := "bo1"; ui_room := "public" |} ]} |}.

(** A message that carries a non-empty sender name, a non-empty body
    and a time stamp.  The handler tests the three fields for
    truthiness, so a time field that is the empty string counts as
    missing. *)
Definition carriesAll (messageData : option MessageData) : Prop :=
  ∃ md name body stamp,
    messageData = Some md ∧
    md_username md = Some name ∧ name ≠ "" ∧
    md_message md = Some body ∧ body ≠ "" ∧
    md_time md = Some stamp ∧ stamp ≠ "".

(** [s2] joins [lobby] under a name written with capitals and
    surrounding blanks, and leaves again. *)
Definition aliceCapsJoins : Outcome :=
  join_room "s2" env0 (Some " Alice123! ") (Some "lobby") init.

Definition aliceCapsLeaves : Outcome :=
  leave_room "s2" env1 (Some "lobby") (stateOf aliceCapsJoins).

Definition aliceCapsDisconnects : Outcome :=
  disconnect "s2" env1 (stateOf aliceCapsJoins).


(** ** Notions used by the further properties *)

(** The members of a room as [Object.values(rooms[room].users)] lists
    them; a room that is not there has none. *)
Definition memberList (st : State) (room : string) : list Member :=
  match rooms st !! room with
  | Some r => Obj.values (users r)
  | None => []
  end.

(** The names in the two tables: within a room no name occurs twice,
    every member entry sits under its own name and that name is well
    formed; every index entry holds a well-formed name and a resolved
    room name. *)
Definition namesWellFormed (st : State) : Prop :=
  (∀ room r,
     rooms st !! room = Some r →
     NoDup (Obj.keys (users r)) ∧
     ∀ u m, (u, m) ∈ users r →
            member_username m = u ∧ validateUsername u = None) ∧
  (∀ sid userInfo,
     socketToUserMap st !! sid = Some userInfo →
     validateUsername (ui_username userInfo) = None ∧
     ui_room userInfo ≠ "" ∧
     (ui_room userInfo ∉ Js.objectPrototypeKeys)).

(** [s1] is in [team] as [alice123!] and [s3] joins it as [bobby45#]. *)
Definition bobbyJoins : Outcome :=
  join_room "s3" env1 (Some "bobby45#") (Some "team") (stateOf aliceJoins).

(** The record [send_message] stores for the message [md] of socket
    [sid]. *)
Definition chatRecord (sid : string) (env : Env) (md : MessageData) :
    FullMessageData :=
  {| data := md; userId := sid; messageId := now env +:+ "-" +:+ sid |}.

(** A batch of messages, each with its sender and clock readings, as
    [send_message] events for one room. *)
Definition sendEvents (roomId : option string)
    (msgs : list (string * Env * MessageData)) : list (string * Env * Event) :=
  map (λ m, (m.1.1, m.1.2, EvSendMessage (Some m.2) roomId)) msgs.

Definition chatRecords (msgs : list (string * Env * MessageData)) :
    list FullMessageData :=
  map (λ m, chatRecord m.1.1 m.1.2 m.2) msgs.

(** The events that do not touch membership. *)
Definition leavesMembership (ev : Event) : Prop :=
  match ev with
  | EvCheckRoom _ | EvSendMessage _ _ | EvTyping _ => True
  | _ => False
  end.

(** An event in order: a socket joins only while it has no session,
    and a [leave_room] names the room of the socket's session. *)
Definition inOrder (sid : string) (ev : Event) (st : State) : Prop :=
  match ev with
  | EvJoinRoom _ _ => socketToUserMap st !! sid = None
  | EvLeaveRoom roomId =>
      ∀ userInfo, socketToUserMap st !! sid = Some userInfo →
                  ui_room userInfo = resolveRoom roomId
  | _ => True
  end.

(** The tables and the transport rooms reached from the start by
    events in order. *)
Inductive reachableInOrder : State → gset (string * string) → Prop :=
| inOrder_init ad : reachableInOrder init ad
| inOrder_step st ad sid env ev st' tr :
    reachableInOrder st ad →
    inOrder sid ev st →
    handle sid env ev st = Returned st' tr →
    reachableInOrder st' (adapterRun ad tr).

(** [s1] joins [team], [s3] joins it too, and [s1] leaves it: a run of
    events in order, with the transport rooms it builds from none. *)
Definition orderlyRun : Outcome :=
  run [ ("s1", env0, EvJoinRoom (Some "alice123!") (Some "team"));
        ("s3", env1, EvJoinRoom (Some "bobby45#") (Some "team"));
        ("s1", env1, EvLeaveRoom (Some "team")) ]
      init [].

(** A clock reading as [Date.now()] prints it: a non-empty string of
    decimal digits. *)
Definition isDecimal (s : string) : Prop :=
  s ≠ "" ∧ ∀ c, c ∈ list_ascii_of_string s → Js.isDigit c = true.


(** A second message, and [team] after [s1] joined it and two messages
    were sent to it; [s3] then joins. *)
Definition mallory : MessageData :=
  {| md_username := Some "mallory"; md_message := Some "hi";
     md_time := Some "10:01" |}.

Definition teamTalks : Outcome :=
  run [ ("s1", env0, EvJoinRoom (Some "alice123!") (Some "team"));
        ("s1", env1, EvSendMessage (Some hello) (Some "team"));
        ("s7", env1, EvSendMessage (Some mallory) (Some "team")) ]
      init [].

Definition bobbyJoinsLate : Outcome :=
  join_room "s3" env1 (Some "bobby45#") (Some "team") (stateOf teamTalks).

(** [s1], a member of [team], sends two messages within one clock
    reading. *)
Definition doubleSend : Outcome :=
  run [ ("s1", env1, EvSendMessage (Some hello) (Some "team"));
        ("s1", env1, EvSendMessage (Some mallory) (Some "team")) ]
      (stateOf aliceJoins) [].

(** [s1] joins the default room. *)
Definition aliceJoinsDefault : Outcome :=
  join_room "s1" env0 (Some "alice123!") None init.

(** ** Room ids that are not strings

    The payload of an event is whatever the client sends.  Besides a
    string, a [roomId] can be an array of strings.  The handlers use
    the room in three ways, and an array behaves differently in each:
    as a property key of [rooms] it stands for its elements joined by
    commas; under [!== 'public'] it differs from every string; handed
    to the transport it stays the array. *)
Inductive RoomIdValue :=
| roomIdString (s : string)
| roomIdArray (elements : list string).

(** Truthiness: every array is truthy, a string unless it is empty. *)
Definition roomIdTruthy (v : RoomIdValue) : bool :=
  match v with
  | roomIdString s => negb (String.eqb s "")
  | roomIdArray _ => true
  end.

(** [roomId || 'public'] *)
Definition resolveRoomValue (roomId : option RoomIdValue) : RoomIdValue :=
  match roomId with
  | Some v => if roomIdTruthy v then v else roomIdString "public"
  | None => roomIdString "public"
  end.

(** The property key [rooms[room]] is read under. *)
Definition propertyKey (room : RoomIdValue) : string :=
  match room with
  | roomIdString s => s
  | roomIdArray elements => String.concat "," elements
  end.

(** [room !== 'public'] *)
Definition differsFromPublic (room : RoomIdValue) : bool :=
  match room with
  | roomIdString s => bool_decide (s ≠ "public")
  | roomIdArray _ => true
  end.

(** The transport calls of [leave_room], with the room as it was
    given. *)
Inductive ValueAction :=
| value_io_to_emit (room : RoomIdValue) (ev : ServerEvent)
| value_socket_leave (sid : string) (room : RoomIdValue).

Inductive ValueOutcome :=
| ValueReturned (st : State) (tr : list ValueAction)
| ValueThrown (st : State) (tr : list ValueAction).

(** [socket.on('leave_room', ({ roomId }) => ...)] for a room id that
    is a string or an array. *)
Definition leave_room_value (sid : string) (env : Env)
    (roomId : option RoomIdValue) (st : State) : ValueOutcome :=
  let room := resolveRoomValue roomId in
  match socketToUserMap st !! sid with
  | None => ValueReturned st []
  | Some userInfo =>
    match roomsGet (rooms st) (propertyKey room) with
    | Undefined => ValueReturned st []
    | Inherited => ValueThrown st []
    | Own r =>
      match Obj.get (ui_username userInfo) (users r) with
      | None => ValueReturned st []
      | Some _ =>
        let systemMessageData := leaveRecord sid env userInfo in
        let r1 := setMessages r (messages r ++ [System systemMessageData]) in
        let r2 := setUsers r1 (Obj.delete (ui_username userInfo) (users r1)) in
        ValueReturned
          {| rooms :=
               if differsFromPublic room
                  && (length (Obj.keys (users r2)) =? 0)
               then delete (propertyKey room) (rooms st)
               else <[ propertyKey room := r2 ]> (rooms st);
             socketToUserMap := delete sid (socketToUserMap st) |}
          [ value_io_to_emit room (system_message systemMessageData);
            value_socket_leave sid room;
            value_io_to_emit room (user_list (Obj.values (users r2))) ]
      end
    end
  end.

(** A call of [leave_room] on a string room, as a call on a room-id
    value. *)
Definition valueAction (a : Action) : option ValueAction :=
  match a with
  | io_to_emit room ev => Some (value_io_to_emit (roomIdString room) ev)
  | socket_leave sid room => Some (value_socket_leave sid (roomIdString room))
  | _ => None
  end.

Definition valueOutcome (o : Outcome) : ValueOutcome :=
  match o with
  | Returned st tr => ValueReturned st (omap valueAction tr)
  | Thrown st tr => ValueThrown st (omap valueAction tr)
  end.

(** * Properties *)

(** ** Faults *)

(** C1. The claim is that no event can make a handler throw.  At two
    inputs the handlers do throw: [send_message] with a well-formed
    message for a room that does not exist (the handler pushes onto
    [rooms[room].messages] without the guard that [typing] and
    [leave_room] have), and [join_room] whose payload has no
    [username] (the handler calls [username.trim()]). *)
Theorem handlers_throw :
  send_message "s1" env0 (Some hello) (Some "nowhere") init = Thrown init [] ∧
  join_room "s1" env0 None (Some "team") init = Thrown init [].
Proof. split; reflexivity. Qed.

(** [send_message] throws exactly when a well-formed message names a
    room that [rooms] does not hold as its own property. *)
Lemma send_message_throws_iff sid env messageData roomId st :
  (∃ st' tr, send_message sid env messageData roomId st = Thrown st' tr) ↔
  (∃ md, messageData = Some md ∧
         Js.truthy (md_username md) && Js.truthy (md_message md)
           && Js.truthy (md_time md) = true) ∧
  rooms st !! resolveRoom roomId = None.
Proof.
  unfold send_message, roomsGet.
  destruct messageData as [md|]; [|split; [intros (?&?&?)|intros [(?&?&?) _]]; done].
  destruct (_ && _ && _) eqn:Hv.
  - destruct (rooms st !! resolveRoom roomId) eqn:Hr.
    + split; [intros (?&?&?)|intros [_ ?]]; done.
    + split; [intros _; eauto|].
      intros _. case_bool_decide; eauto.
  - split; [intros (?&?&?); done|]. intros [(md'&?&?) _]. simplify_eq. congruence.
Qed.

(** [typing] has the guard and never throws. *)
Lemma typing_returns sid roomId st :
  ∃ tr, typing sid roomId st = Returned st tr.
Proof.
  unfold typing.
  destruct (socketToUserMap st !! sid); [|eauto].
  destruct (roomsGet _ _); eauto.
Qed.

Lemma truthy_spec v : Js.truthy v = true ↔ ∃ s, v = Some s ∧ s ≠ "".
Proof.
  unfold Js.truthy. destruct v as [s|]; [|naive_solver].
  destruct (String.eqb_spec s ""); simpl; naive_solver.
Qed.

Lemma carriesAll_spec messageData :
  carriesAll messageData ↔
  ∃ md, messageData = Some md ∧
        Js.truthy (md_username md) && Js.truthy (md_message md)
          && Js.truthy (md_time md) = true.
Proof.
  unfold carriesAll. split.
  - intros (md & name & body & stamp & -> & Hn & ? & Hb & ? & Ht & ?).
    exists md. split; [done|]. rewrite !andb_true_iff, !truthy_spec.
    naive_solver.
  - intros (md & -> & Hall).
    rewrite !andb_true_iff, !truthy_spec in Hall.
    destruct Hall as [[(name&?&?) (body&?&?)] (stamp&?&?)].
    by exists md, name, body, stamp.
Qed.

(** Exactly which events make a handler throw. *)
Lemma handle_throws_iff sid env ev st :
  (∃ st' tr, handle sid env ev st = Thrown st' tr) ↔
  match ev with
  | EvCheckRoom roomId =>
      roomsGet (rooms st) (resolveRoom roomId) = Inherited
  | EvJoinRoom username roomId =>
      username = None ∨
      ∃ raw, username = Some raw ∧
             validateUsername (standardize raw) = None ∧
             roomsGet (rooms st) (resolveRoom roomId) = Inherited
  | EvSendMessage messageData roomId =>
      carriesAll messageData ∧ rooms st !! resolveRoom roomId = None
  | EvTyping _ => False
  | EvLeaveRoom roomId =>
      is_Some (socketToUserMap st !! sid) ∧
      roomsGet (rooms st) (resolveRoom roomId) = Inherited
  | EvDisconnect =>
      ∃ userInfo, socketToUserMap st !! sid = Some userInfo ∧
                  roomsGet (rooms st) (ui_room userInfo) = Inherited
  end.
Proof.
  destruct ev as [roomId|username roomId|md roomId|roomId|roomId|]; simpl.
  - unfold check_room. destruct (roomsGet _ _); naive_solver.
  - unfold join_room. destruct username as [raw|]; [|naive_solver].
    fold (standardize raw).
    destruct (validateUsername (standardize raw)) eqn:Hv; [naive_solver|].
    destruct (roomsGet _ _) eqn:Hg; simpl; [|naive_solver|naive_solver].
    case_bool_decide; naive_solver.
  - rewrite send_message_throws_iff, carriesAll_spec. naive_solver.
  - destruct (typing_returns sid roomId st) as [tr ->]. naive_solver.
  - unfold leave_room. destruct (_ !! sid) as [ui|]; [|naive_solver].
    destruct (roomsGet _ _); [|naive_solver..].
    destruct (Obj.get _ _); naive_solver.
  - unfold disconnect. destruct (_ !! sid) as [ui|].
    + destruct (roomsGet (rooms st) (ui_room ui)) eqn:Hg.
      * split; [|intros (? & [= <-] & ?); congruence].
        destruct (Obj.get _ _); by intros (? & ? & ?).
      * split; eauto.
      * split; [by intros (? & ? & ?)|intros (? & [= <-] & ?); congruence].
    + split; [by intros (? & ? & ?)|by intros (? & ? & _)].
Qed.


(** ** Facts about dictionaries and room lookup *)

Section ObjFacts.
Context {V : Type}.
Implicit Types (o : list (string * V)) (k : string) (v : V).

Lemma obj_get_set_eq k v o : Obj.get k (Obj.set k v o) = Some v.
Proof.
  induction o as [|[k' v'] o IH]; simpl.
  - by rewrite decide_True.
  - destruct (decide (k = k')) as [->|Hne]; simpl.
    + by rewrite decide_True.
    + by rewrite decide_False.
Qed.

Lemma obj_get_set_ne k k' v o :
  k ≠ k' → Obj.get k' (Obj.set k v o) = Obj.get k' o.
Proof.
  intros Hne. induction o as [|[k0 v0] o IH]; simpl.
  - by rewrite decide_False.
  - destruct (decide (k = k0)) as [->|Hk]; simpl.
    + by rewrite !decide_False.
    + by rewrite IH.
Qed.

Lemma obj_get_delete_eq k o : Obj.get k (Obj.delete k o) = None.
Proof.
  induction o as [|[k' v'] o IH]; simpl; [done|].
  destruct (decide (k = k')) as [->|Hne]; simpl; [done|].
  by rewrite decide_False.
Qed.

Lemma obj_get_delete_ne k k' o :
  k ≠ k' → Obj.get k' (Obj.delete k o) = Obj.get k' o.
Proof.
  intros Hne. induction o as [|[k0 v0] o IH]; simpl; [done|].
  destruct (decide (k = k0)) as [->|Hk]; simpl.
  - by rewrite decide_False.
  - by rewrite IH.
Qed.

Lemma obj_set_not_nil k v o : Obj.set k v o ≠ [].
Proof. destruct o as [|[k' v'] o]; simpl; [done|]. by case_decide. Qed.

Lemma obj_set_fresh k v o : Obj.get k o = None → Obj.set k v o = o ++ [(k, v)].
Proof.
  induction o as [|[k' v'] o IH]; simpl; [done|].
  case_decide; [done|]. intros ?. by rewrite IH.
Qed.

Lemma obj_keys_length o : length (Obj.keys o) = length o.
Proof. unfold Obj.keys. by rewrite length_fmap. Qed.

End ObjFacts.

Lemma resolveRoom_not_empty roomId : resolveRoom roomId ≠ "".
Proof.
  unfold resolveRoom. destruct roomId as [r|]; [|done]. simpl.
  destruct (String.eqb r "") eqn:He; simpl; [done|].
  intros ->. by rewrite String.eqb_refl in He.
Qed.

Lemma resolveRoom_name room : room ≠ "" → resolveRoom (Some room) = room.
Proof.
  intros Hne. unfold resolveRoom; simpl.
  destruct (String.eqb room "") eqn:He; simpl; [|done].
  by apply String.eqb_eq in He.
Qed.

Lemma roomsGet_own rs room r : rs !! room = Some r → roomsGet rs room = Own r.
Proof. unfold roomsGet. by intros ->. Qed.

Lemma roomsGet_undefined rs room :
  rs !! room = None → room ∉ Js.objectPrototypeKeys →
  roomsGet rs room = Undefined.
Proof. unfold roomsGet. intros -> ?. by rewrite bool_decide_false. Qed.

Lemma roomsGet_inherited rs room :
  roomsGet rs room = Inherited ↔
  rs !! room = None ∧ room ∈ Js.objectPrototypeKeys.
Proof.
  unfold roomsGet. destruct (rs !! room).
  - split; [done|]. by intros [? _].
  - case_bool_decide; split; try done. by intros [_ ?].
Qed.

(** ** Joining *)

(** A join that signals [join_success] found the name well-formed and
    free, and did exactly the five calls. *)
Lemma join_room_success sid env username roomId st st' tr :
  join_room sid env username roomId st = Returned st' tr →
  In (socket_emit sid join_success) tr →
  ∃ raw r0,
    username = Some raw ∧
    validateUsername (standardize raw) = None ∧
    (rooms st !! resolveRoom roomId = Some r0 ∨
     roomsGet (rooms st) (resolveRoom roomId) = Undefined ∧ r0 = emptyRoom) ∧
    Obj.get (standardize raw) (users r0) = None ∧
    messages r0 = history st (resolveRoom roomId) ∧
    st' = {| rooms := <[ resolveRoom roomId := joinedRoom sid env raw r0 ]> (rooms st);
             socketToUserMap :=
               <[ sid := {| ui_username := standardize raw;
                            ui_room := resolveRoom roomId |} ]>
                 (socketToUserMap st) |} ∧
    tr = joinTrace sid env raw (resolveRoom roomId) r0.
Proof.
  unfold join_room, history. intros Hj Hin.
  destruct username as [raw|]; [|done].
  fold (standardize raw) in Hj.
  destruct (validateUsername (standardize raw)) eqn:Hv.
  { simplify_eq. destruct Hin as [?|[]]; done. }
  destruct (roomsGet (rooms st) (resolveRoom roomId)) as [r| |] eqn:Hg;
    [|done|].
  - assert (rooms st !! resolveRoom roomId = Some r) as Hr.
    { unfold roomsGet in Hg. destruct (rooms st !! _); [by simplify_eq|].
      by destruct (bool_decide _). }
    simpl in Hj. case_bool_decide as Ht.
    { simplify_eq. destruct Hin as [?|[]]; done. }
    simplify_eq. exists raw, r. rewrite Hr.
    split_and!; try done; [by left|].
    destruct (Obj.get _ _) eqn:?; [|done]. destruct Ht; eauto.
  - simplify_eq. exists raw, emptyRoom.
    assert (rooms st !! resolveRoom roomId = None) as ->.
    { unfold roomsGet in Hg. by destruct (rooms st !! _). }
    split_and!; try done. by right.
Qed.

(** Conversely, a well-formed name that is free in a room that is there
    or can be created goes through. *)
Lemma join_room_accepts sid env raw roomId st r0 :
  validateUsername (standardize raw) = None →
  (rooms st !! resolveRoom roomId = Some r0 ∨
   roomsGet (rooms st) (resolveRoom roomId) = Undefined ∧ r0 = emptyRoom) →
  Obj.get (standardize raw) (users r0) = None →
  join_room sid env (Some raw) roomId st =
    Returned
      {| rooms := <[ resolveRoom roomId := joinedRoom sid env raw r0 ]> (rooms st);
         socketToUserMap :=
           <[ sid := {| ui_username := standardize raw;
                        ui_room := resolveRoom roomId |} ]>
             (socketToUserMap st) |}
      (joinTrace sid env raw (resolveRoom roomId) r0).
Proof.
  intros Hv Hroom Hfree. unfold join_room. fold (standardize raw). rewrite Hv.
  destruct Hroom as [Hr|[Hu ->]].
  - rewrite (roomsGet_own _ _ _ Hr). rewrite bool_decide_false; [done|].
    rewrite Hfree. by intros [? ?].
  - by rewrite Hu.
Qed.

(** C3. A connection whose join goes through receives, in this order:
    the history of the room as it stood before the join (by
    [socket.emit], so no other connection receives it), the member
    list, its own join record through the room broadcast, and
    [join_success].  The join record is appended to the stored history
    after the delivered records. *)
Theorem join_delivers_history_then_record sid env username roomId st st' tr ad :
  join_room sid env username roomId st = Returned st' tr →
  In (socket_emit sid join_success) tr →
  ∃ raw members,
    username = Some raw ∧
    deliveries ad tr sid =
      [ chat_history (history st (resolveRoom roomId));
        user_list members;
        system_message (joinRecord sid env raw);
        join_success ] ∧
    history st' (resolveRoom roomId) =
      history st (resolveRoom roomId) ++ [System (joinRecord sid env raw)] ∧
    ∀ c h, c ≠ sid → chat_history h ∉ deliveries ad tr c.
Proof.
  intros Hj Hin.
  destruct (join_room_success _ _ _ _ _ _ _ Hj Hin)
    as (raw & r0 & -> & _ & _ & _ & Hh & -> & ->).
  exists raw, (Obj.values (users (joinedRoom sid env raw r0))).
  split; [done|]. split; [|split].
  - unfold joinTrace, deliveries, delivered, adapterStep.
    rewrite !decide_True by set_solver. by rewrite Hh.
  - unfold history at 1. simpl. rewrite lookup_insert_eq. simpl. by rewrite Hh.
  - intros c h Hc. unfold joinTrace, deliveries, delivered, adapterStep.
    rewrite !decide_False by done.
    repeat case_decide; simpl; set_solver.
Qed.

Lemma join_delivers_history_then_record_witness :
  ∃ raw members,
    Some "bobby45#" = Some raw ∧
    deliveries ∅ (traceOf bobbyJoinsLate) "s3" =
      [ chat_history
          [ System (joinRecord "s1" env0 "alice123!");
            Chat (chatRecord "s1" env1 hello);
            Chat (chatRecord "s7" env1 mallory) ];
        user_list members;
        system_message (joinRecord "s3" env1 raw);
        join_success ] ∧
    history (stateOf bobbyJoinsLate) "team" =
      [ System (joinRecord "s1" env0 "alice123!");
        Chat (chatRecord "s1" env1 hello);
        Chat (chatRecord "s7" env1 mallory) ] ++
        [System (joinRecord "s3" env1 raw)] ∧
    ∀ c h, c ≠ "s3" → chat_history h ∉ deliveries ∅ (traceOf bobbyJoinsLate) c.
Proof.
  apply (join_delivers_history_then_record
           "s3" env1 (Some "bobby45#") (Some "team") (stateOf teamTalks)).
  - reflexivity.
  - vm_compute. auto 10.
Defined.

(** C4, as stated, fails: the first join of the room [team] appends the
    join record, yet the history handed to the joiner does not hold
    it. *)
Lemma join_history_lacks_join_record :
  ∃ st' tr,
    join_room "s1" env0 (Some "alice123!") (Some "team") init = Returned st' tr ∧
    In (System (joinRecord "s1" env0 "alice123!")) (history st' "team") ∧
    ∀ h, In (socket_emit "s1" (chat_history h)) tr →
         ¬ In (System (joinRecord "s1" env0 "alice123!")) h.
Proof.
  exists (stateOf aliceJoins), (traceOf aliceJoins).
  split; [reflexivity|]. split; [vm_compute; auto|].
  intros h Hin. vm_compute in Hin.
  destruct Hin as [?|[Hh|[?|[?|[?|[]]]]]]; try discriminate.
  injection Hh as <-. intros [].
Qed.

(** C4, amended. In a join that goes through, the history is handed to
    the joiner first and the join record is appended afterwards: the
    call that carries the history comes before the broadcast of the
    record, and the stored history is the delivered one followed by the
    record. *)
Theorem join_delivers_before_append sid env username roomId st st' tr :
  join_room sid env username roomId st = Returned st' tr →
  In (socket_emit sid join_success) tr →
  ∃ raw h before after,
    username = Some raw ∧
    tr = before ++ socket_emit sid (chat_history h) :: after ∧
    In (io_to_emit (resolveRoom roomId)
          (system_message (joinRecord sid env raw))) after ∧
    history st' (resolveRoom roomId) = h ++ [System (joinRecord sid env raw)].
Proof.
  intros Hj Hin.
  destruct (join_room_success _ _ _ _ _ _ _ Hj Hin)
    as (raw & r0 & -> & _ & _ & _ & _ & -> & ->).
  exists raw, (messages r0), [socket_join sid (resolveRoom roomId)].
  eexists. split; [done|]. split; [reflexivity|]. split.
  - simpl. auto.
  - unfold history. simpl. by rewrite lookup_insert_eq.
Qed.

Lemma join_delivers_before_append_witness :
  ∃ raw h before after,
    Some "alice123!" = Some raw ∧
    traceOf aliceJoins = before ++ socket_emit "s1" (chat_history h) :: after ∧
    In (io_to_emit (resolveRoom (Some "team"))
          (system_message (joinRecord "s1" env0 raw))) after ∧
    history (stateOf aliceJoins) (resolveRoom (Some "team")) =
      h ++ [System (joinRecord "s1" env0 raw)].
Proof.
  apply (join_delivers_before_append
           "s1" env0 (Some "alice123!") (Some "team") init).
  - reflexivity.
  - vm_compute. auto 10.
Defined.

(** ** The two tables *)

(** C2. The claim is that membership and the reverse index agree in
    every reachable state.  After [s1] joins [team] and then [lobby],
    the second join overwrites the index entry of [s1] and leaves its
    member entry in [team] behind: the member entry is owned by [s1]
    while the index sends [s1] to [lobby]. *)
Theorem rejoin_leaves_stale_member :
  ∃ st tr r,
    aliceRejoins = Returned st tr ∧
    reachable st ∧
    rooms st !! "team" = Some r ∧
    Obj.get "alice123!" (users r) =
      Some {| socketId := "s1"; member_username := "alice123!" |} ∧
    socketToUserMap st !! "s1" =
      Some {| ui_username := "bobby45#"; ui_room := "lobby" |} ∧
    ¬ consistent st.
Proof.
  exists (stateOf aliceRejoins), (traceOf aliceRejoins).
  eexists. split; [reflexivity|]. split.
  { eapply (reachable_step (stateOf aliceJoins) "s1" env1
              (EvJoinRoom (Some "bobby45#") (Some "lobby")));
      [|reflexivity].
    eapply (reachable_step init "s1" env0
              (EvJoinRoom (Some "alice123!") (Some "team")));
      [apply reachable_init|reflexivity]. }
  split; [reflexivity|]. split; [reflexivity|]. split; [reflexivity|].
  intros [Hm _].
  specialize (Hm "team" _ "alice123!" _ eq_refl eq_refl).
  vm_compute in Hm. discriminate.
Qed.

(** What [cleanUp] leaves under the names of the table. *)
Lemma cleanUp_lookup_ne room room' r rs :
  room ≠ room' → cleanUp room r rs !! room' = rs !! room'.
Proof.
  intros Hne. unfold cleanUp.
  destruct (_ && _); [by rewrite lookup_delete_ne|by rewrite lookup_insert_ne].
Qed.

Lemma cleanUp_lookup_eq room r rs :
  cleanUp room r rs !! room =
    if bool_decide (room ≠ "public") && (length (users r) =? 0)
    then None else Some r.
Proof.
  unfold cleanUp. rewrite obj_keys_length.
  destruct (_ && _); [by rewrite lookup_delete_eq|by rewrite lookup_insert_eq].
Qed.

Lemma cleanUp_deleted room r rs :
  cleanUp room r rs !! room = None ↔ room ≠ "public" ∧ users r = [].
Proof.
  rewrite cleanUp_lookup_eq. case_bool_decide as Hp; simpl.
  - destruct (users r); simpl; naive_solver.
  - naive_solver.
Qed.



(** ** The room table *)

Lemma wellFormed_init : roomsWellFormed init.
Proof.
  split; [by eexists|]. intros room r Hr. simpl in Hr.
  apply lookup_singleton_Some in Hr as [<- <-].
  split; [done|]. split; [|by left].
  unfold Js.objectPrototypeKeys. set_solver.
Qed.

Lemma wellFormed_insert st room r m :
  roomsWellFormed st →
  room ≠ "" → room ∉ Js.objectPrototypeKeys →
  room = "public" ∨ users r ≠ [] →
  roomsWellFormed {| rooms := <[ room := r ]> (rooms st); socketToUserMap := m |}.
Proof.
  intros [Hp Hw] ? ? ?. split; simpl.
  - destruct (decide (room = "public")) as [->|].
    + rewrite lookup_insert_eq. by eexists.
    + by rewrite lookup_insert_ne.
  - intros room' r'. destruct (decide (room = room')) as [<-|].
    + rewrite lookup_insert_eq. by intros [= <-].
    + rewrite lookup_insert_ne by done. apply Hw.
Qed.

Lemma wellFormed_cleanUp st room r r2 m :
  roomsWellFormed st →
  rooms st !! room = Some r →
  roomsWellFormed {| rooms := cleanUp room r2 (rooms st); socketToUserMap := m |}.
Proof.
  intros [Hp Hw] Hr. destruct (Hw _ _ Hr) as (Hne & Hproto & _).
  split; simpl.
  - destruct (decide (room = "public")) as [->|].
    + rewrite cleanUp_lookup_eq. rewrite bool_decide_false by naive_solver.
      by eexists.
    + by rewrite cleanUp_lookup_ne.
  - intros room' r'. destruct (decide (room = room')) as [<-|].
    + rewrite cleanUp_lookup_eq. case_bool_decide as Hpub; simpl.
      * destruct (users r2) eqn:Hu; simpl; [done|].
        intros [= <-]. split_and!; try done. right. by rewrite Hu.
      * intros [= <-]. split_and!; try done. left.
        by destruct (decide (room = "public")).
    + rewrite cleanUp_lookup_ne by done. apply Hw.
Qed.

Lemma wellFormed_same_rooms st m :
  roomsWellFormed st →
  roomsWellFormed {| rooms := rooms st; socketToUserMap := m |}.
Proof. by intros [? ?]. Qed.

Lemma roomsGet_undefined_inv rs room :
  roomsGet rs room = Undefined →
  rs !! room = None ∧ room ∉ Js.objectPrototypeKeys.
Proof.
  unfold roomsGet. destruct (rs !! room); [done|].
  by case_bool_decide.
Qed.

Lemma roomsGet_own_inv rs room r :
  roomsGet rs room = Own r → rs !! room = Some r.
Proof.
  unfold roomsGet. destruct (rs !! room); [by intros [= ->]|].
  by case_bool_decide.
Qed.

(** Every handler that returns keeps the room table well formed. *)
Lemma handle_wellFormed sid env ev st st' tr :
  roomsWellFormed st →
  handle sid env ev st = Returned st' tr →
  roomsWellFormed st'.
Proof.
  intros Hw. destruct ev as [roomId|username roomId|md roomId|roomId|roomId|];
    simpl.
  - unfold check_room. destruct (roomsGet _ _); by intros [= <- _].
  - unfold join_room. destruct username as [raw|]; [|done].
    destruct (validateUsername _); [by intros [= <- _]|].
    destruct (roomsGet _ _) as [r| |] eqn:Hg; [|done|]; simpl.
    + case_bool_decide; [by intros [= <- _]|]. intros [= <- _].
      apply roomsGet_own_inv in Hg. destruct Hw as [Hp Hw'].
      destruct (Hw' _ _ Hg) as (?&?&_).
      apply wellFormed_insert; try done. right. apply obj_set_not_nil.
    + intros [= <- _]. apply roomsGet_undefined_inv in Hg as [_ ?].
      apply wellFormed_insert; try done.
      * apply resolveRoom_not_empty.
      * by right.
  - unfold send_message. destruct md as [md|]; [|by intros [= <- _]].
    destruct (_ && _ && _); [|by intros [= <- _]].
    destruct (roomsGet _ _) as [r| |] eqn:Hg; [|done..].
    intros [= <- _]. apply roomsGet_own_inv in Hg.
    destruct Hw as [Hp Hw']. destruct (Hw' _ _ Hg) as (?&?&?).
    by apply wellFormed_insert.
  - unfold typing. destruct (_ !! sid); [|by intros [= <- _]].
    destruct (roomsGet _ _); by intros [= <- _].
  - unfold leave_room. destruct (_ !! sid) as [ui|]; [|by intros [= <- _]].
    destruct (roomsGet _ _) as [r| |] eqn:Hg; [|done|by intros [= <- _]].
    destruct (Obj.get _ _); [|by intros [= <- _]].
    intros [= <- _]. apply roomsGet_own_inv in Hg.
    by eapply wellFormed_cleanUp.
  - unfold disconnect. destruct (_ !! sid) as [ui|]; [|by intros [= <- _]].
    destruct (roomsGet _ _) as [r| |] eqn:Hg; [|done|].
    + destruct (Obj.get _ _).
      * intros [= <- _]. apply roomsGet_own_inv in Hg.
        by eapply wellFormed_cleanUp.
      * intros [= <- _]. by apply wellFormed_same_rooms.
    + intros [= <- _]. by apply wellFormed_same_rooms.
Qed.

Lemma reachable_wellFormed st : reachable st → roomsWellFormed st.
Proof.
  induction 1 as [|st sid env ev st' tr _ IH Hstep];
    [apply wellFormed_init|by eapply handle_wellFormed].
Qed.

(** A join into a room that is not there creates it: the joiner is
    handed an empty history and the new room holds the joiner and the
    join record only. *)
Lemma join_creates_fresh_room c env raw room st :
  rooms st !! room = None →
  room ≠ "" → room ∉ Js.objectPrototypeKeys →
  validateUsername (standardize raw) = None →
  ∃ st',
    join_room c env (Some raw) (Some room) st =
      Returned st'
        [ socket_join c room;
          socket_emit c (chat_history []);
          io_to_emit room
            (user_list
               [{| socketId := c; member_username := standardize raw |}]);
          io_to_emit room (system_message (joinRecord c env raw));
          socket_emit c join_success ] ∧
    rooms st' !! room =
      Some {| users :=
                [(standardize raw,
                  {| socketId := c; member_username := standardize raw |})];
              messages := [System (joinRecord c env raw)] |}.
Proof.
  intros Hnone Hne Hproto Hv.
  pose proof (join_room_accepts c env raw (Some room) st emptyRoom Hv) as Hj.
  rewrite resolveRoom_name in Hj by done.
  rewrite Hj; [|right; split; [by apply roomsGet_undefined|done]|done].
  eexists. split; [reflexivity|]. simpl. by rewrite lookup_insert_eq.
Qed.

(** [check_room] on a room that is not there hands [undefined] to the
    acknowledgement. *)
Lemma check_room_absent c room st :
  rooms st !! room = None →
  room ≠ "" → room ∉ Js.objectPrototypeKeys →
  check_room c (Some room) st = Returned st [callback c ack_undefined].
Proof.
  intros Hnone Hne Hproto. unfold check_room.
  rewrite resolveRoom_name by done. by rewrite roomsGet_undefined.
Qed.

(** On an entry without members the answer is the boolean [false]; the
    default room at start is one. *)
Lemma check_room_default_room_empty c :
  check_room c None init = Returned init [callback c (ack_bool false)].
Proof. reflexivity. Qed.

(** Once [s1] has joined and left [team], the room is gone and the
    acknowledgement of [check_room] is called with [undefined], which
    is not the boolean [false]. *)
Lemma check_room_deleted_room_not_false :
  ∃ st tr,
    aliceLeaves = Returned st tr ∧
    rooms st !! "team" = None ∧
    check_room "s2" (Some "team") st = Returned st [callback "s2" ack_undefined] ∧
    check_room "s2" (Some "team") st ≠ Returned st [callback "s2" (ack_bool false)].
Proof.
  exists (stateOf aliceLeaves), (traceOf aliceLeaves).
  split; [reflexivity|]. split; [reflexivity|]. split; [reflexivity|].
  intros H. vm_compute in H. discriminate.
Qed.

(** As long as every room id is a string, the room table behaves as
    the comment at the clean-up says: in every state reached by such
    events a room entry exists exactly when it is the default room or
    has a member, and the default room is there.  When the only member
    of another room leaves it, by
    [leave_room] or by [disconnect], the entry is deleted; [check_room]
    on that name then answers [undefined]; and a join under that name
    creates a room that holds the joiner and the join record only, the
    joiner being handed an empty history. *)
Theorem room_lifecycle st :
  reachable st →
  is_Some (rooms st !! "public") ∧
  (∀ room,
     is_Some (rooms st !! room) ↔
     room = "public" ∨ ∃ r, rooms st !! room = Some r ∧ users r ≠ []) ∧
  (∀ sid env ev room r u m userInfo,
     rooms st !! room = Some r →
     room ≠ "public" →
     users r = [(u, m)] →
     socketToUserMap st !! sid = Some userInfo →
     ui_username userInfo = u →
     (∃ roomId, ev = EvLeaveRoom roomId ∧ resolveRoom roomId = room) ∨
       (ev = EvDisconnect ∧ ui_room userInfo = room) →
     ∃ st' tr,
       handle sid env ev st = Returned st' tr ∧
       rooms st' !! room = None ∧
       (∀ c, check_room c (Some room) st' =
               Returned st' [callback c ack_undefined]) ∧
       (∀ c env' raw,
          validateUsername (standardize raw) = None →
          ∃ st'',
            join_room c env' (Some raw) (Some room) st' =
              Returned st''
                [ socket_join c room;
                  socket_emit c (chat_history []);
                  io_to_emit room
                    (user_list
                       [{| socketId := c; member_username := standardize raw |}]);
                  io_to_emit room (system_message (joinRecord c env' raw));
                  socket_emit c join_success ] ∧
            rooms st'' !! room =
              Some {| users :=
                        [(standardize raw,
                          {| socketId := c;
                             member_username := standardize raw |})];
                      messages := [System (joinRecord c env' raw)] |})).
Proof.
  intros Hreach. pose proof (reachable_wellFormed _ Hreach) as [Hp Hw].
  split; [done|]. split.
  - intros room. split.
    + intros [r Hr]. destruct (Hw _ _ Hr) as (_&_&[->|?]); [by left|].
      right. eauto.
    + intros [->|(r&Hr&_)]; [done|by eexists].
  - intros sid env ev room r u m userInfo Hr Hpub Hu Hs Hname Hev.
    destruct (Hw _ _ Hr) as (Hne & Hproto & _).
    assert (Obj.get u (users r) = Some m) as Hget.
    { rewrite Hu. simpl. by rewrite decide_True. }
    assert (cleanUp room
              (setUsers (setMessages r
                 (messages r ++ [System (leaveRecord sid env userInfo)]))
                 (Obj.delete u (users r))) (rooms st) !! room = None) as Hgone.
    { apply cleanUp_deleted. split; [done|]. simpl. rewrite Hu. simpl.
      by rewrite decide_True. }
    assert (∃ st' tr, handle sid env ev st = Returned st' tr ∧
                      rooms st' !! room = None) as (st' & tr & Hh & Hnone).
    { destruct Hev as [(roomId & -> & Hres)|[-> Hroom]]; simpl.
      - unfold leave_room. rewrite Hs, Hres, (roomsGet_own _ _ _ Hr).
        rewrite Hname, Hget. eauto.
      - unfold disconnect. rewrite Hs, Hroom, (roomsGet_own _ _ _ Hr).
        rewrite Hname, Hget. eauto. }
    exists st', tr. split; [done|]. split; [done|]. split.
    + intros c. by apply check_room_absent.
    + intros c env' raw Hv. by apply join_creates_fresh_room.
Qed.

Lemma aliceJoins_reachable : reachable (stateOf aliceJoins).
Proof.
  eapply (reachable_step init "s1" env0
            (EvJoinRoom (Some "alice123!") (Some "team")));
    [apply reachable_init|reflexivity].
Qed.

Lemma room_lifecycle_witness :
  is_Some (rooms (stateOf aliceJoins) !! "public") ∧
  (is_Some (rooms (stateOf aliceJoins) !! "team") ↔
   "team" = "public" ∨
   ∃ r, rooms (stateOf aliceJoins) !! "team" = Some r ∧ users r ≠ []) ∧
  ∃ st' tr,
    handle "s1" env1 (EvLeaveRoom (Some "team")) (stateOf aliceJoins) =
      Returned st' tr ∧
    rooms st' !! "team" = None ∧
    check_room "s2" (Some "team") st' =
      Returned st' [callback "s2" ack_undefined] ∧
    ∃ st'',
      join_room "s2" env1 (Some "bobby45#") (Some "team") st' =
        Returned st''
          [ socket_join "s2" "team";
            socket_emit "s2" (chat_history []);
            io_to_emit "team"
              (user_list
                 [{| socketId := "s2";
                     member_username := standardize "bobby45#" |}]);
            io_to_emit "team" (system_message (joinRecord "s2" env1 "bobby45#"));
            socket_emit "s2" join_success ] ∧
      rooms st'' !! "team" =
        Some {| users :=
                  [(standardize "bobby45#",
                    {| socketId := "s2";
                       member_username := standardize "bobby45#" |})];
                messages := [System (joinRecord "s2" env1 "bobby45#")] |}.
Proof.
  destruct (room_lifecycle (stateOf aliceJoins) aliceJoins_reachable)
    as (Hp & Hiff & Hlast).
  split; [exact Hp|]. split; [apply Hiff|].
  destruct (Hlast "s1" env1 (EvLeaveRoom (Some "team")) "team"
              {| users :=
                   [("alice123!",
                     {| socketId := "s1"; member_username := "alice123!" |})];
                 messages := [System (joinRecord "s1" env0 "alice123!")] |}
              "alice123!"
              {| socketId := "s1"; member_username := "alice123!" |}
              {| ui_username := "alice123!"; ui_room := "team" |})
    as (st' & tr & Hh & Hn & Hc & Hj).
  - reflexivity.
  - discriminate.
  - reflexivity.
  - reflexivity.
  - reflexivity.
  - left. exists (Some "team"). split; reflexivity.
  - exists st', tr. split; [exact Hh|]. split; [exact Hn|].
    split; [apply Hc|]. apply Hj. reflexivity.
Defined.

(** On room ids that are strings the handler over room-id values is
    [leave_room]: the same tables, the same calls, the same throw. *)
Lemma leave_room_value_string sid env roomId st :
  leave_room_value sid env (roomIdString <$> roomId) st =
    valueOutcome (leave_room sid env roomId st).
Proof.
  unfold leave_room_value, leave_room, resolveRoomValue, resolveRoom, cleanUp.
  assert (propertyKey
            (match roomIdString <$> roomId with
             | Some v => if roomIdTruthy v then v else roomIdString "public"
             | None => roomIdString "public"
             end) =
          match roomId with
          | Some r => if Js.truthy roomId then r else "public"
          | None => "public"
          end ∧
          differsFromPublic
            (match roomIdString <$> roomId with
             | Some v => if roomIdTruthy v then v else roomIdString "public"
             | None => roomIdString "public"
             end) =
          bool_decide
            (match roomId with
             | Some r => if Js.truthy roomId then r else "public"
             | None => "public"
             end ≠ "public") ∧
          (match roomIdString <$> roomId with
           | Some v => if roomIdTruthy v then v else roomIdString "public"
           | None => roomIdString "public"
           end) =
          roomIdString
            (match roomId with
             | Some r => if Js.truthy roomId then r else "public"
             | None => "public"
             end)) as (Hk & Hp & Hv).
  { destruct roomId as [r|]; simpl; [|done].
    by destruct (negb (String.eqb r "")). }
  rewrite Hk, Hp, Hv.
  destruct (socketToUserMap st !! sid) as [userInfo|]; [|done].
  destruct (roomsGet _ _) as [r| |]; [|done..].
  by destruct (Obj.get _ _).
Qed.

(** C5. The claim is that the default room is never deleted, as the
    comment at the clean-up has it.  [s1] joins the default room and
    then sends [leave_room] with the room id [['public']], an array:
    as a property key the array is [public], so the handler finds the
    room and removes [s1] from it, but [room !== 'public'] holds of an
    array, so the clean-up deletes the default room.  From then on
    [check_room] for the default room answers [undefined] and a
    well-formed [send_message] to it throws. *)
Theorem default_room_deleted :
  ∃ st1 tr1 st2 tr2,
    join_room "s1" env0 (Some "alice123!") None init = Returned st1 tr1 ∧
    In (socket_emit "s1" join_success) tr1 ∧
    is_Some (rooms st1 !! "public") ∧
    leave_room_value "s1" env1 (Some (roomIdArray ["public"])) st1 =
      ValueReturned st2 tr2 ∧
    rooms st2 !! "public" = None ∧
    check_room "s2" None st2 = Returned st2 [callback "s2" ack_undefined] ∧
    send_message "s2" env1 (Some hello) None st2 = Thrown st2 [].
Proof.
  exists (stateOf aliceJoinsDefault), (traceOf aliceJoinsDefault).
  eexists _, _. split; [reflexivity|]. split; [vm_compute; auto 10|].
  split; [by eexists|]. split; [reflexivity|].
  split; [reflexivity|]. split; reflexivity.
Qed.

(** ** Username format *)

Lemma isDigit_spec c : Js.isDigit c = bool_decide (c ∈ decimalDigits).
Proof. by destruct c as [[] [] [] [] [] [] [] []]; vm_compute. Qed.

Lemma matchCount_countIn (cls : ascii → bool) (set : list ascii) s :
  (∀ c, cls c = bool_decide (c ∈ set)) →
  Js.matchCount cls s = countIn set s.
Proof.
  intros Hc. unfold countIn. induction s as [|c s IH]; simpl; [done|].
  rewrite filter_cons, Hc, IH. by case_bool_decide; case_decide.
Qed.

Lemma test_countIn (cls : ascii → bool) (set : list ascii) s :
  (∀ c, cls c = bool_decide (c ∈ set)) →
  Js.test cls s = negb (countIn set s =? 0).
Proof.
  intros Hc. unfold countIn. induction s as [|c s IH]; simpl; [done|].
  rewrite filter_cons, Hc, IH. by case_bool_decide; case_decide.
Qed.

(** [validateUsername] in terms of the three counts. *)
Lemma validateUsername_spec s :
  validateUsername s =
    if String.length s <? 5 then Some msgTooShort
    else if countIn decimalDigits s <? 2 then Some msgFewDigits
    else if countIn specialChars s =? 0 then Some msgNoSpecial
    else None.
Proof.
  unfold validateUsername.
  rewrite (matchCount_countIn _ _ _ isDigit_spec).
  rewrite (test_countIn isSpecialChar specialChars) by done.
  rewrite negb_involutive. reflexivity.
Qed.

(** C6. The three format rules are checked on the standardized name, in
    the order length, digits, special character, and the first rule
    that fails gives the reason; a name that fails the format is
    refused with that reason in whatever state the tables are, so also
    when the name is a member of the room already. *)
Theorem format_checked_first raw :
  (String.length (standardize raw) < 5 →
     validateUsername (standardize raw) = Some msgTooShort) ∧
  (5 ≤ String.length (standardize raw) →
   countIn decimalDigits (standardize raw) < 2 →
     validateUsername (standardize raw) = Some msgFewDigits) ∧
  (5 ≤ String.length (standardize raw) →
   2 ≤ countIn decimalDigits (standardize raw) →
   countIn specialChars (standardize raw) < 1 →
     validateUsername (standardize raw) = Some msgNoSpecial) ∧
  (5 ≤ String.length (standardize raw) →
   2 ≤ countIn decimalDigits (standardize raw) →
   1 ≤ countIn specialChars (standardize raw) →
     validateUsername (standardize raw) = None) ∧
  (∀ sid env roomId st reason,
     validateUsername (standardize raw) = Some reason →
     join_room sid env (Some raw) roomId st =
       Returned st [socket_emit sid (join_error reason)]) ∧
  (∀ sid env roomId st r m,
     String.length (standardize raw) < 5 →
     rooms st !! resolveRoom roomId = Some r →
     Obj.get (standardize raw) (users r) = Some m →
     join_room sid env (Some raw) roomId st =
       Returned st [socket_emit sid (join_error msgTooShort)]).
Proof.
  assert (∀ sid env roomId st reason,
            validateUsername (standardize raw) = Some reason →
            join_room sid env (Some raw) roomId st =
              Returned st [socket_emit sid (join_error reason)]) as Hjoin.
  { intros sid env roomId st reason Hv. unfold join_room.
    fold (standardize raw). by rewrite Hv. }
  assert (String.length (standardize raw) < 5 →
          validateUsername (standardize raw) = Some msgTooShort) as Hshort.
  { intros Hl. rewrite validateUsername_spec.
    by destruct (Nat.ltb_spec (String.length (standardize raw)) 5); [|lia]. }
  split_and!; try done.
  - intros Hl Hd. rewrite validateUsername_spec.
    destruct (Nat.ltb_spec (String.length (standardize raw)) 5); [lia|].
    by destruct (Nat.ltb_spec (countIn decimalDigits (standardize raw)) 2);
      [|lia].
  - intros Hl Hd Hs. rewrite validateUsername_spec.
    destruct (Nat.ltb_spec (String.length (standardize raw)) 5); [lia|].
    destruct (Nat.ltb_spec (countIn decimalDigits (standardize raw)) 2);
      [lia|].
    by destruct (Nat.eqb_spec (countIn specialChars (standardize raw)) 0);
      [|lia].
  - intros Hl Hd Hs. rewrite validateUsername_spec.
    destruct (Nat.ltb_spec (String.length (standardize raw)) 5); [lia|].
    destruct (Nat.ltb_spec (countIn decimalDigits (standardize raw)) 2);
      [lia|].
    by destruct (Nat.eqb_spec (countIn specialChars (standardize raw)) 0);
      [lia|].
  - intros sid env roomId st r m Hl _ _. by apply Hjoin, Hshort.
Qed.

Lemma format_checked_first_witness :
  validateUsername (standardize "bo1") = Some msgTooShort ∧
  validateUsername (standardize "Alicee1!") = Some msgFewDigits ∧
  validateUsername (standardize "alice123") = Some msgNoSpecial ∧
  validateUsername (standardize " Alice123! ") = None ∧
  join_room "s1" env0 (Some "alice123") (Some "team") init =
    Returned init [socket_emit "s1" (join_error msgNoSpecial)] ∧
  join_room "s1" env0 (Some "Bo1") None squatted =
    Returned squatted [socket_emit "s1" (join_error msgTooShort)].
Proof.
  split_and!.
  - apply (proj1 (format_checked_first "bo1")). vm_compute. lia.
  - apply (proj1 (proj2 (format_checked_first "Alicee1!"))); vm_compute; lia.
  - apply (proj1 (proj2 (proj2 (format_checked_first "alice123"))));
      vm_compute; lia.
  - apply (proj1 (proj2 (proj2 (proj2 (format_checked_first " Alice123! ")))));
      vm_compute; lia.
  - apply (proj1 (proj2 (proj2 (proj2 (proj2
             (format_checked_first "alice123")))))).
    reflexivity.
  - apply (proj2 (proj2 (proj2 (proj2 (proj2 (format_checked_first "Bo1")))))
             "s1" env0 None squatted
             {| users :=
                  [("bo1", {| socketId := "s9"; member_username := "bo1" |})];
                messages := [] |}
             {| socketId := "s9"; member_username := "bo1" |}).
    + vm_compute. lia.
    + reflexivity.
    + reflexivity.
Defined.

(** ** Uniqueness of names *)

(** C7. A name is unique within a room, not across rooms.  When the
    standardized name is a member of the room already, the join is
    refused: the tables stay as they are, the only call is the
    [join_error] to the requesting socket, so no transport room changes
    and no other socket receives anything.  When the name is a member
    of another room only, the join goes through and both sessions stand
    side by side. *)
Theorem username_unique_per_room sid env raw roomId st :
  validateUsername (standardize raw) = None →
  (∀ r m,
     rooms st !! resolveRoom roomId = Some r →
     Obj.get (standardize raw) (users r) = Some m →
     ∃ tr,
       join_room sid env (Some raw) roomId st = Returned st tr ∧
       tr = [socket_emit sid (join_error msgTaken)] ∧
       (∀ ad, adapterRun ad tr = ad) ∧
       (∀ ad, deliveries ad tr sid = [join_error msgTaken]) ∧
       (∀ ad c, c ≠ sid → deliveries ad tr c = [])) ∧
  (∀ other ro mo r0,
     other ≠ resolveRoom roomId →
     rooms st !! other = Some ro →
     Obj.get (standardize raw) (users ro) = Some mo →
     socketId mo ≠ sid →
     rooms st !! resolveRoom roomId = Some r0 ∨
       roomsGet (rooms st) (resolveRoom roomId) = Undefined ∧ r0 = emptyRoom →
     Obj.get (standardize raw) (users r0) = None →
     ∃ st' tr r',
       join_room sid env (Some raw) roomId st = Returned st' tr ∧
       In (socket_emit sid join_success) tr ∧
       rooms st' !! other = Some ro ∧
       socketToUserMap st' !! socketId mo = socketToUserMap st !! socketId mo ∧
       rooms st' !! resolveRoom roomId = Some r' ∧
       Obj.get (standardize raw) (users r') =
         Some {| socketId := sid; member_username := standardize raw |} ∧
       socketToUserMap st' !! sid =
         Some {| ui_username := standardize raw;
                 ui_room := resolveRoom roomId |}).
Proof.
  intros Hv. split.
  - intros r m Hr Hm. eexists. split; [|split; [reflexivity|]].
    + unfold join_room. fold (standardize raw).
      rewrite Hv, (roomsGet_own _ _ _ Hr). simpl.
      rewrite bool_decide_true; [done|]. rewrite Hm. by eexists.
    + split; [done|]. split.
      * intros ad. simpl. by rewrite decide_True.
      * intros ad c Hc. simpl. by rewrite decide_False.
  - intros other ro mo r0 Hother Hro Hmo Hsock Hroom Hfree.
    rewrite (join_room_accepts sid env raw roomId st r0 Hv Hroom Hfree).
    eexists _, _, _. split; [reflexivity|]. simpl.
    split; [auto 10|].
    rewrite lookup_insert_ne by done. split; [done|].
    rewrite lookup_insert_ne by done. split; [done|].
    rewrite !lookup_insert_eq. split; [reflexivity|]. simpl.
    by rewrite obj_get_set_eq.
Qed.

Lemma username_unique_per_room_witness :
  (∃ tr,
     join_room "s3" env1 (Some "ALICE123!") (Some "team") (stateOf twoRooms) =
       Returned (stateOf twoRooms) tr ∧
     tr = [socket_emit "s3" (join_error msgTaken)] ∧
     (∀ ad, adapterRun ad tr = ad) ∧
     (∀ ad, deliveries ad tr "s3" = [join_error msgTaken]) ∧
     (∀ ad c, c ≠ "s3" → deliveries ad tr c = [])) ∧
  (∃ st' tr r',
     join_room "s2" env0 (Some " Alice123! ") (Some "lobby") (stateOf aliceJoins) =
       Returned st' tr ∧
     In (socket_emit "s2" join_success) tr ∧
     rooms st' !! "team" =
       Some {| users :=
                 [("alice123!",
                   {| socketId := "s1"; member_username := "alice123!" |})];
               messages := [System (joinRecord "s1" env0 "alice123!")] |} ∧
     socketToUserMap st' !! "s1" = socketToUserMap (stateOf aliceJoins) !! "s1" ∧
     rooms st' !! resolveRoom (Some "lobby") = Some r' ∧
     Obj.get (standardize " Alice123! ") (users r') =
       Some {| socketId := "s2";
               member_username := standardize " Alice123! " |} ∧
     socketToUserMap st' !! "s2" =
       Some {| ui_username := standardize " Alice123! ";
               ui_room := resolveRoom (Some "lobby") |}).
Proof.
  split.
  - apply (proj1 (username_unique_per_room "s3" env1 "ALICE123!" (Some "team")
                    (stateOf twoRooms) eq_refl)
             {| users :=
                  [("alice123!",
                    {| socketId := "s1"; member_username := "alice123!" |})];
                messages := [System (joinRecord "s1" env0 "alice123!")] |}
             {| socketId := "s1"; member_username := "alice123!" |});
      reflexivity.
  - apply (proj2 (username_unique_per_room "s2" env0 " Alice123! " (Some "lobby")
                    (stateOf aliceJoins) eq_refl)
             "team"
             {| users :=
                  [("alice123!",
                    {| socketId := "s1"; member_username := "alice123!" |})];
                messages := [System (joinRecord "s1" env0 "alice123!")] |}
             {| socketId := "s1"; member_username := "alice123!" |}
             emptyRoom).
    + vm_compute. discriminate.
    + reflexivity.
    + reflexivity.
    + simpl. discriminate.
    + right. split; reflexivity.
    + reflexivity.
Defined.

(** ** Messages *)

(** C8, as stated, fails in the id: the id is built from the clock
    reading and the socket id, so two messages of one socket within one
    clock reading are stored under the same id, and the id of the
    second is not fresh. *)
Lemma send_message_id_repeats :
  ∃ st tr first second,
    doubleSend = Returned st tr ∧
    history st "team" =
      [ System (joinRecord "s1" env0 "alice123!"); Chat first; Chat second ] ∧
    data first = hello ∧
    data second = mallory ∧
    messageId second = messageId first.
Proof.
  eexists _, _, _, _. split; [reflexivity|]. split; [reflexivity|].
  split; [reflexivity|]. split; reflexivity.
Qed.

(** C8, amended. When the resolved room is there, [send_message]
    appends and broadcasts exactly when the message carries a non-empty
    sender name, a non-empty body and a time stamp, whatever the
    reverse index holds for the sender.  The appended record is the
    message with the connection as [userId] and the id the server
    builds from its clock reading and the connection, which is the same
    for two messages of one connection within one clock reading; the
    broadcast is [io.to(room)], which reaches every socket in the
    transport room, the sender not excepted.  Otherwise the handler
    changes nothing and calls nothing. *)
Theorem send_message_permissive sid env messageData roomId st r :
  rooms st !! resolveRoom roomId = Some r →
  (carriesAll messageData →
     ∃ md full,
       messageData = Some md ∧
       full = {| data := md; userId := sid;
                 messageId := now env +:+ "-" +:+ sid |} ∧
       send_message sid env messageData roomId st =
         Returned
           {| rooms :=
                <[ resolveRoom roomId :=
                     {| users := users r;
                        messages := messages r ++ [Chat full] |} ]> (rooms st);
              socketToUserMap := socketToUserMap st |}
           [io_to_emit (resolveRoom roomId) (receive_message full)] ∧
       ∀ ad c,
         (c, resolveRoom roomId) ∈ ad →
         deliveries ad [io_to_emit (resolveRoom roomId) (receive_message full)] c
           = [receive_message full]) ∧
  (¬ carriesAll messageData →
     send_message sid env messageData roomId st = Returned st []).
Proof.
  intros Hr. split.
  - intros Hc. apply carriesAll_spec in Hc as (md & -> & Hall).
    eexists md, _. split; [done|]. split; [reflexivity|]. split.
    + unfold send_message. by rewrite Hall, (roomsGet_own _ _ _ Hr).
    + intros ad c Hin. simpl. by rewrite decide_True.
  - intros Hc. unfold send_message.
    destruct messageData as [md|]; [|done].
    destruct (_ && _ && _) eqn:Hall; [|done].
    destruct Hc. apply carriesAll_spec. eauto.
Qed.

Lemma send_message_permissive_witness :
  (∃ md full,
     Some hello = Some md ∧
     full = {| data := md; userId := "s7";
               messageId := now env1 +:+ "-" +:+ "s7" |} ∧
     send_message "s7" env1 (Some hello) (Some "team") (stateOf aliceJoins) =
       Returned
         {| rooms :=
              <[ resolveRoom (Some "team") :=
                   {| users :=
                        [("alice123!",
                          {| socketId := "s1"; member_username := "alice123!" |})];
                      messages :=
                        [System (joinRecord "s1" env0 "alice123!")] ++ [Chat full] |} ]>
                (rooms (stateOf aliceJoins));
            socketToUserMap := socketToUserMap (stateOf aliceJoins) |}
         [io_to_emit (resolveRoom (Some "team")) (receive_message full)] ∧
     ∀ ad c,
       (c, resolveRoom (Some "team")) ∈ ad →
       deliveries ad
         [io_to_emit (resolveRoom (Some "team")) (receive_message full)] c
         = [receive_message full]) ∧
  send_message "s7" env1
    (Some {| md_username := Some "alice123!"; md_message := Some "";
             md_time := Some "10:00" |})
    (Some "team") (stateOf aliceJoins) =
    Returned (stateOf aliceJoins) [].
Proof.
  split.
  - apply (proj1 (send_message_permissive "s7" env1 (Some hello) (Some "team")
                    (stateOf aliceJoins)
                    {| users :=
                         [("alice123!",
                           {| socketId := "s1"; member_username := "alice123!" |})];
                       messages := [System (joinRecord "s1" env0 "alice123!")] |}
                    eq_refl)).
    exists hello, "alice123!", "hello", "10:00". by split_and!.
  - apply (proj2 (send_message_permissive "s7" env1
                    (Some {| md_username := Some "alice123!";
                             md_message := Some ""; md_time := Some "10:00" |})
                    (Some "team") (stateOf aliceJoins)
                    {| users :=
                         [("alice123!",
                           {| socketId := "s1"; member_username := "alice123!" |})];
                       messages := [System (joinRecord "s1" env0 "alice123!")] |}
                    eq_refl)).
    intros (md & name & body & stamp & Hmd & _ & _ & Hb & Hne & _).
    injection Hmd as <-. simpl in Hb. injection Hb as <-. by apply Hne.
Defined.

(** ** Names shown in system messages *)

(** C9, as stated, fails for the leave and disconnect records: a
    session created from the raw name with capitals and blanks is
    announced on leaving under its standardized name, so no system
    message of the leave or of the disconnect shows the raw name. *)
Lemma leave_record_shows_standardized_name :
  aliceCapsJoins =
    Returned (stateOf aliceCapsJoins) (traceOf aliceCapsJoins) ∧
  In (socket_emit "s2" join_success) (traceOf aliceCapsJoins) ∧
  aliceCapsLeaves =
    Returned (stateOf aliceCapsLeaves)
      [ io_to_emit "lobby" (system_message
          {| message := "alice123! left the chat"; time := "10:00:01 AM";
             sys_messageId := "system-1700000000001-s2" |});
        socket_leave "s2" "lobby";
        io_to_emit "lobby" (user_list []) ] ∧
  aliceCapsDisconnects =
    Returned (stateOf aliceCapsDisconnects)
      [ socket_to_emit "s2" "lobby" (system_message
          {| message := "alice123! left the chat"; time := "10:00:01 AM";
             sys_messageId := "system-1700000000001-s2" |});
        io_to_emit "lobby" (user_list []) ] ∧
  "alice123! left the chat" ≠ " Alice123! " +:+ " left the chat".
Proof. split_and!; try reflexivity; [vm_compute; auto 10|discriminate]. Qed.

(** C9, amended.  The join record shows the raw name as it was sent,
    while the session is stored under the standardized name; the record
    appended when that session leaves or disconnects shows the
    standardized name. *)
Theorem system_messages_names sid env env' username roomId st st1 tr :
  join_room sid env username roomId st = Returned st1 tr →
  In (socket_emit sid join_success) tr →
  ∃ raw r1,
    username = Some raw ∧
    In (io_to_emit (resolveRoom roomId)
          (system_message
             {| message := raw +:+ " joined the chat"; time := localTime env;
                sys_messageId := "system-" +:+ now env +:+ "-" +:+ sid |})) tr ∧
    rooms st1 !! resolveRoom roomId = Some r1 ∧
    Obj.get (standardize raw) (users r1) =
      Some {| socketId := sid; member_username := standardize raw |} ∧
    socketToUserMap st1 !! sid =
      Some {| ui_username := standardize raw; ui_room := resolveRoom roomId |} ∧
    (∃ st2 members,
       leave_room sid env' roomId st1 =
         Returned st2
           [ io_to_emit (resolveRoom roomId)
               (system_message
                  {| message := standardize raw +:+ " left the chat";
                     time := localTime env';
                     sys_messageId := "system-" +:+ now env' +:+ "-" +:+ sid |});
             socket_leave sid (resolveRoom roomId);
             io_to_emit (resolveRoom roomId) (user_list members) ]) ∧
    (∃ st2 members,
       disconnect sid env' st1 =
         Returned st2
           [ socket_to_emit sid (resolveRoom roomId)
               (system_message
                  {| message := standardize raw +:+ " left the chat";
                     time := localTime env';
                     sys_messageId := "system-" +:+ now env' +:+ "-" +:+ sid |});
             io_to_emit (resolveRoom roomId) (user_list members) ]).
Proof.
  intros Hj Hin.
  destruct (join_room_success _ _ _ _ _ _ _ Hj Hin)
    as (raw & r0 & -> & _ & _ & _ & _ & -> & ->).
  exists raw, (joinedRoom sid env raw r0). split; [done|].
  split; [simpl; auto 10|].
  assert (rooms
            {| rooms := <[resolveRoom roomId:=joinedRoom sid env raw r0]> (rooms st);
               socketToUserMap :=
                 <[sid:={| ui_username := standardize raw;
                           ui_room := resolveRoom roomId |}]>
                   (socketToUserMap st) |} !! resolveRoom roomId =
          Some (joinedRoom sid env raw r0)) as Hroom.
  { simpl. by rewrite lookup_insert_eq. }
  split; [done|]. split; [simpl; by rewrite obj_get_set_eq|].
  split; [simpl; by rewrite lookup_insert_eq|]. split.
  - unfold leave_room. simpl socketToUserMap. rewrite lookup_insert_eq.
    rewrite (roomsGet_own _ _ _ Hroom). simpl. rewrite obj_get_set_eq.
    eauto.
  - unfold disconnect. simpl socketToUserMap. rewrite lookup_insert_eq.
    simpl ui_room. rewrite (roomsGet_own _ _ _ Hroom). simpl.
    rewrite obj_get_set_eq. eauto.
Qed.

Lemma system_messages_names_witness :
  ∃ raw r1,
    Some " Alice123! " = Some raw ∧
    In (io_to_emit (resolveRoom (Some "lobby"))
          (system_message
             {| message := raw +:+ " joined the chat"; time := localTime env0;
                sys_messageId := "system-" +:+ now env0 +:+ "-" +:+ "s2" |}))
       (traceOf aliceCapsJoins) ∧
    rooms (stateOf aliceCapsJoins) !! resolveRoom (Some "lobby") = Some r1 ∧
    Obj.get (standardize raw) (users r1) =
      Some {| socketId := "s2"; member_username := standardize raw |} ∧
    socketToUserMap (stateOf aliceCapsJoins) !! "s2" =
      Some {| ui_username := standardize raw;
              ui_room := resolveRoom (Some "lobby") |} ∧
    (∃ st2 members,
       leave_room "s2" env1 (Some "lobby") (stateOf aliceCapsJoins) =
         Returned st2
           [ io_to_emit (resolveRoom (Some "lobby"))
               (system_message
                  {| message := standardize raw +:+ " left the chat";
                     time := localTime env1;
                     sys_messageId := "system-" +:+ now env1 +:+ "-" +:+ "s2" |});
             socket_leave "s2" (resolveRoom (Some "lobby"));
             io_to_emit (resolveRoom (Some "lobby")) (user_list members) ]) ∧
    (∃ st2 members,
       disconnect "s2" env1 (stateOf aliceCapsJoins) =
         Returned st2
           [ socket_to_emit "s2" (resolveRoom (Some "lobby"))
               (system_message
                  {| message := standardize raw +:+ " left the chat";
                     time := localTime env1;
                     sys_messageId := "system-" +:+ now env1 +:+ "-" +:+ "s2" |});
             io_to_emit (resolveRoom (Some "lobby")) (user_list members) ]).
Proof.
  apply (system_messages_names "s2" env0 env1 (Some " Alice123! ") (Some "lobby")
           init).
  - reflexivity.
  - vm_compute. auto 10.
Defined.

(** ** Further facts *)


(** The other way the two tables part: [s1], whose session is in
    [team], names [lobby] in [leave_room].  The entry of [s2] in
    [lobby] goes, and with it the room, while the index keeps [s2] in
    [lobby] and loses [s1], whose entry in [team] stays. *)
Lemma leave_other_room_breaks_index :
  ∃ st tr,
    leave_room "s1" env1 (Some "lobby") (stateOf twoRooms) = Returned st tr ∧
    rooms st !! "lobby" = None ∧
    socketToUserMap st !! "s2" =
      Some {| ui_username := "alice123!"; ui_room := "lobby" |} ∧
    socketToUserMap st !! "s1" = None ∧
    rooms st !! "team" = rooms (stateOf twoRooms) !! "team" ∧
    ¬ membersIndexed st ∧ ¬ indexHasMember st.
Proof.
  eexists _, _. split; [reflexivity|].
  split; [reflexivity|]. split; [reflexivity|]. split; [reflexivity|].
  split; [reflexivity|]. split.
  - intros Hm.
    specialize (Hm "team" _ "alice123!" _ eq_refl eq_refl).
    vm_compute in Hm. discriminate.
  - intros Hi. destruct (Hi "s2" _ eq_refl) as (r & m & Hr & _).
    vm_compute in Hr. discriminate.
Qed.

(** A member entry left behind by a second join keeps its room alive
    after the connection is gone: [s1] joins [team], joins [lobby], and
    disconnects; [team] still lists [s1]. *)
Lemma stale_member_keeps_room :
  ∃ st tr r,
    disconnect "s1" env1 (stateOf aliceRejoins) = Returned st tr ∧
    socketToUserMap st !! "s1" = None ∧
    rooms st !! "lobby" = None ∧
    rooms st !! "team" = Some r ∧
    Obj.get "alice123!" (users r) =
      Some {| socketId := "s1"; member_username := "alice123!" |}.
Proof. eexists _, _, _. split_and!; reflexivity. Qed.

(** ** Where the two tables do stay in step *)

Lemma obj_get_Some_not_nil {V} k (v : V) o :
  Obj.get k o = Some v → (length o =? 0) = false.
Proof. by destruct o. Qed.

Lemma consistent_init : consistent init.
Proof.
  split.
  - intros room r u m Hr Hu. simpl in Hr.
    apply lookup_singleton_Some in Hr as [_ <-]. done.
  - intros sid userInfo Hs. simpl in Hs. by rewrite lookup_empty in Hs.
Qed.

(** A first join of a socket keeps the tables in step. *)
Lemma consistent_join st sid room u r0 msgs :
  consistent st →
  socketToUserMap st !! sid = None →
  rooms st !! room = Some r0 ∨ rooms st !! room = None ∧ r0 = emptyRoom →
  Obj.get u (users r0) = None →
  consistent
    {| rooms :=
         <[ room :=
              {| users :=
                   Obj.set u {| socketId := sid; member_username := u |}
                     (users r0);
                 messages := msgs |} ]> (rooms st);
       socketToUserMap :=
         <[ sid := {| ui_username := u; ui_room := room |} ]>
           (socketToUserMap st) |}.
Proof.
  intros [Hm Hi] Hnew Hroom Hfree. split.
  - intros room' r' u' m' Hr' Hu'. simpl in *.
    destruct (decide (room = room')) as [<-|Hne].
    + rewrite lookup_insert_eq in Hr'. injection Hr' as <-. simpl in Hu'.
      destruct (decide (u = u')) as [<-|Hu].
      * rewrite obj_get_set_eq in Hu'. injection Hu' as <-. simpl.
        by rewrite lookup_insert_eq.
      * rewrite obj_get_set_ne in Hu' by done.
        destruct Hroom as [Hr0|[_ ->]]; [|done].
        pose proof (Hm _ _ _ _ Hr0 Hu') as Hidx.
        rewrite lookup_insert_ne; [done|]. intros ?. congruence.
    + rewrite lookup_insert_ne in Hr' by done.
      pose proof (Hm _ _ _ _ Hr' Hu') as Hidx.
      rewrite lookup_insert_ne; [done|]. intros ?. congruence.
  - intros s userInfo Hs. simpl in *.
    destruct (decide (sid = s)) as [<-|Hne].
    + rewrite lookup_insert_eq in Hs. injection Hs as <-. simpl.
      eexists _, _. rewrite lookup_insert_eq. split; [done|]. simpl.
      by rewrite obj_get_set_eq.
    + rewrite lookup_insert_ne in Hs by done.
      destruct (Hi _ _ Hs) as (r & m & Hr & Hu & Hsock).
      destruct (decide (room = ui_room userInfo)) as [->|Hroom'].
      * rewrite lookup_insert_eq. eexists _, m. split; [done|]. simpl.
        destruct Hroom as [Hr0|[Hr0 _]]; [|congruence].
        assert (r0 = r) as -> by congruence.
        rewrite obj_get_set_ne; [done|]. intros ?. congruence.
      * rewrite lookup_insert_ne by done. eauto.
Qed.

(** Appending to a history does not touch either table's keys. *)
Lemma consistent_append st room r msgs :
  consistent st →
  rooms st !! room = Some r →
  consistent
    {| rooms := <[ room := setMessages r msgs ]> (rooms st);
       socketToUserMap := socketToUserMap st |}.
Proof.
  intros [Hm Hi] Hr. split.
  - intros room' r' u' m' Hr' Hu'. simpl in *.
    destruct (decide (room = room')) as [<-|Hne].
    + rewrite lookup_insert_eq in Hr'. injection Hr' as <-. eauto.
    + rewrite lookup_insert_ne in Hr' by done. eauto.
  - intros s userInfo Hs. simpl in *.
    destruct (Hi _ _ Hs) as (r' & m & Hr' & Hu & Hsock).
    destruct (decide (room = ui_room userInfo)) as [->|Hne].
    + rewrite lookup_insert_eq. assert (r' = r) as -> by congruence.
      by eexists _, m.
    + rewrite lookup_insert_ne by done. eauto.
Qed.

(** Removing the session of a socket from the room it is recorded in
    keeps the tables in step. *)
Lemma consistent_leave st sid userInfo r m msgs :
  consistent st →
  socketToUserMap st !! sid = Some userInfo →
  rooms st !! ui_room userInfo = Some r →
  Obj.get (ui_username userInfo) (users r) = Some m →
  consistent
    {| rooms :=
         cleanUp (ui_room userInfo)
           {| users := Obj.delete (ui_username userInfo) (users r);
              messages := msgs |} (rooms st);
       socketToUserMap := delete sid (socketToUserMap st) |}.
Proof.
  intros [Hm Hi] Hs Hr Hu. destruct userInfo as [u room]. simpl in *.
  assert (socketId m = sid) as Hown.
  { destruct (Hi _ _ Hs) as (r' & m' & Hr' & Hu' & <-). simpl in *. congruence. }
  split.
  - intros room' r' u' m' Hr' Hu'. simpl in *.
    destruct (decide (room = room')) as [<-|Hne].
    + rewrite cleanUp_lookup_eq in Hr'. destruct (_ && _); [done|].
      injection Hr' as <-. simpl in Hu'.
      destruct (decide (u = u')) as [<-|Hne].
      { by rewrite obj_get_delete_eq in Hu'. }
      rewrite obj_get_delete_ne in Hu' by done.
      pose proof (Hm _ _ _ _ Hr Hu') as Hidx.
      rewrite lookup_delete_ne; [done|]. intros ?. congruence.
    + rewrite cleanUp_lookup_ne in Hr' by done.
      pose proof (Hm _ _ _ _ Hr' Hu') as Hidx.
      rewrite lookup_delete_ne; [done|]. intros ?. congruence.
  - intros s userInfo' Hs'. simpl in *.
    destruct (decide (sid = s)) as [<-|Hne].
    { by rewrite lookup_delete_eq in Hs'. }
    rewrite lookup_delete_ne in Hs' by done.
    destruct (Hi _ _ Hs') as (r' & m' & Hr' & Hu' & Hsock).
    destruct (decide (room = ui_room userInfo')) as [Heq|Hroom].
    + rewrite <- Heq in *. assert (r' = r) as -> by congruence.
      assert (u ≠ ui_username userInfo') as Hname.
      { intros Hname. rewrite <- Hname in Hu'. congruence. }
      rewrite cleanUp_lookup_eq. simpl.
      rewrite (obj_get_Some_not_nil (ui_username userInfo') m'),
        andb_false_r by by rewrite obj_get_delete_ne.
      eexists _, m'. split; [done|]. simpl.
      by rewrite obj_get_delete_ne.
    + rewrite cleanUp_lookup_ne by done. eauto.
Qed.

(** Every handler keeps the tables in step, save for the two cases
    above: a join by a socket that already has a session, and a
    [leave_room] that names a room other than the session's. *)
Lemma handle_consistent sid env ev st st' tr :
  consistent st →
  handle sid env ev st = Returned st' tr →
  match ev with
  | EvJoinRoom _ _ => socketToUserMap st !! sid = None
  | EvLeaveRoom roomId =>
      ∀ userInfo, socketToUserMap st !! sid = Some userInfo →
                  ui_room userInfo = resolveRoom roomId
  | _ => True
  end →
  consistent st'.
Proof.
  intros Hc Hh Hev.
  destruct ev as [roomId|username roomId|md roomId|roomId|roomId|];
    simpl in Hh.
  - unfold check_room in Hh. destruct (roomsGet _ _); by simplify_eq.
  - unfold join_room in Hh. destruct username as [raw|]; [|done].
    destruct (validateUsername _); [by simplify_eq|].
    destruct (roomsGet _ _) as [r0| |] eqn:Hg; [|done|]; simpl in Hh.
    + case_bool_decide as Ht; [by simplify_eq|]. simplify_eq.
      apply roomsGet_own_inv in Hg. apply consistent_join; eauto.
      destruct (Obj.get _ _) eqn:?; [|done]. destruct Ht; eauto.
    + simplify_eq. apply roomsGet_undefined_inv in Hg as [Hg _].
      by apply (consistent_join st sid _ _ emptyRoom); eauto.
  - unfold send_message in Hh. destruct md as [md|]; [|by simplify_eq].
    destruct (_ && _ && _); [|by simplify_eq].
    destruct (roomsGet _ _) as [r0| |] eqn:Hg; [|done..].
    simplify_eq. apply roomsGet_own_inv in Hg. by apply consistent_append.
  - unfold typing in Hh. destruct (_ !! sid); [|by simplify_eq].
    destruct (roomsGet _ _); by simplify_eq.
  - unfold leave_room in Hh.
    destruct (_ !! sid) as [ui|] eqn:Hs; [|by simplify_eq].
    destruct (roomsGet _ _) as [r0| |] eqn:Hg; [|done|by simplify_eq].
    destruct (Obj.get _ _) as [m|] eqn:Hu; [|by simplify_eq].
    simplify_eq. apply roomsGet_own_inv in Hg.
    rewrite <- (Hev _ eq_refl) in *. by eapply consistent_leave.
  - unfold disconnect in Hh.
    destruct (_ !! sid) as [ui|] eqn:Hs; [|by simplify_eq].
    destruct Hc as [Hm Hi].
    destruct (Hi _ _ Hs) as (r & m & Hr & Hu & Hsock).
    rewrite (roomsGet_own _ _ _ Hr), Hu in Hh. simplify_eq.
    by eapply consistent_leave.
Qed.

(** * Further properties of the handlers *)

(** ** Standardizing a name *)

Lemma las_inj s1 s2 :
  list_ascii_of_string s1 = list_ascii_of_string s2 → s1 = s2.
Proof.
  intros H. rewrite <- (string_of_list_ascii_of_string s1),
    <- (string_of_list_ascii_of_string s2). by rewrite H.
Qed.

Lemma las_app s1 s2 :
  list_ascii_of_string (s1 +:+ s2) =
    list_ascii_of_string s1 ++ list_ascii_of_string s2.
Proof. induction s1; simpl; [done|]. by f_equal. Qed.

Lemma las_rev_app s1 s2 :
  list_ascii_of_string (String.rev_app s1 s2) =
    rev (list_ascii_of_string s1) ++ list_ascii_of_string s2.
Proof.
  revert s2. induction s1 as [|c s1 IH]; intros s2; simpl; [done|].
  by rewrite IH, <- app_assoc.
Qed.

Lemma las_rev s :
  list_ascii_of_string (String.rev s) = rev (list_ascii_of_string s).
Proof. unfold String.rev. by rewrite las_rev_app, app_nil_r. Qed.

Lemma string_rev_involutive s : String.rev (String.rev s) = s.
Proof. apply las_inj. by rewrite !las_rev, rev_involutive. Qed.

Lemma string_rev_cons c s :
  String.rev (String c s) = String.rev s +:+ String c "".
Proof. apply las_inj. by rewrite las_app, !las_rev. Qed.

Lemma string_rev_snoc c s :
  String.rev (s +:+ String c "") = String c (String.rev s).
Proof. apply las_inj. simpl. by rewrite !las_rev, las_app, rev_app_distr. Qed.

(** A string is clean at its start when it does not begin with a blank. *)
Lemma trimStart_clean c s :
  Js.isWhiteSpace c = false → Js.trimStart (String c s) = String c s.
Proof. intros H. simpl. by rewrite H. Qed.

Lemma trimStart_cases s :
  Js.trimStart s = "" ∨
  ∃ c s', Js.trimStart s = String c s' ∧ Js.isWhiteSpace c = false.
Proof.
  induction s as [|c s IH]; simpl; [by left|].
  destruct (Js.isWhiteSpace c) eqn:Hc; [done|]. right. eauto.
Qed.

Lemma trimStart_idemp s : Js.trimStart (Js.trimStart s) = Js.trimStart s.
Proof.
  destruct (trimStart_cases s) as [->|(c & s' & -> & Hc)]; [done|].
  by apply trimStart_clean.
Qed.

Lemma trimStart_snoc c s :
  Js.isWhiteSpace c = false →
  Js.trimStart (s +:+ String c "") = Js.trimStart s +:+ String c "".
Proof.
  intros Hc. induction s as [|a s IH]; simpl.
  - by rewrite Hc.
  - by destruct (Js.isWhiteSpace a).
Qed.

(** Trimming the end keeps a clean start. *)
Lemma trimEnd_keeps_start c s :
  Js.isWhiteSpace c = false →
  ∃ s', Js.trimEnd (String c s) = String c s'.
Proof.
  intros Hc. unfold Js.trimEnd.
  rewrite string_rev_cons, trimStart_snoc, string_rev_snoc by done. eauto.
Qed.

Lemma trim_cases s :
  Js.trim s = "" ∨
  ∃ c s', Js.trim s = String c s' ∧ Js.isWhiteSpace c = false.
Proof.
  unfold Js.trim.
  destruct (trimStart_cases s) as [->|(c & s' & -> & Hc)]; [by left|].
  destruct (trimEnd_keeps_start c s' Hc) as [s'' ->]. right. eauto.
Qed.

Lemma trimEnd_idemp s : Js.trimEnd (Js.trimEnd s) = Js.trimEnd s.
Proof.
  unfold Js.trimEnd. by rewrite string_rev_involutive, trimStart_idemp.
Qed.

Lemma trim_idemp s : Js.trim (Js.trim s) = Js.trim s.
Proof.
  destruct (trim_cases s) as [E|(c & s' & E & Hc)].
  - by rewrite E.
  - unfold Js.trim at 1. rewrite E, trimStart_clean by done.
    rewrite <- E. unfold Js.trim. apply trimEnd_idemp.
Qed.

Lemma lowerChar_idemp c : Js.lowerChar (Js.lowerChar c) = Js.lowerChar c.
Proof. by destruct c as [[] [] [] [] [] [] [] []]; vm_compute. Qed.

Lemma lowerChar_whiteSpace c :
  Js.isWhiteSpace (Js.lowerChar c) = Js.isWhiteSpace c.
Proof. by destruct c as [[] [] [] [] [] [] [] []]; vm_compute. Qed.

Lemma toLowerCase_idemp s :
  Js.toLowerCase (Js.toLowerCase s) = Js.toLowerCase s.
Proof. induction s; simpl; [done|]. by rewrite lowerChar_idemp, IHs. Qed.

Lemma toLowerCase_rev_app s1 s2 :
  Js.toLowerCase (String.rev_app s1 s2) =
    String.rev_app (Js.toLowerCase s1) (Js.toLowerCase s2).
Proof.
  revert s2. induction s1 as [|c s1 IH]; intros s2; simpl; [done|].
  by rewrite IH.
Qed.

Lemma toLowerCase_rev s :
  Js.toLowerCase (String.rev s) = String.rev (Js.toLowerCase s).
Proof. unfold String.rev. by rewrite toLowerCase_rev_app. Qed.

Lemma toLowerCase_trimStart s :
  Js.toLowerCase (Js.trimStart s) = Js.trimStart (Js.toLowerCase s).
Proof.
  induction s as [|c s IH]; simpl; [done|].
  rewrite lowerChar_whiteSpace. by destruct (Js.isWhiteSpace c).
Qed.

Lemma toLowerCase_trim s :
  Js.toLowerCase (Js.trim s) = Js.trim (Js.toLowerCase s).
Proof.
  unfold Js.trim, Js.trimEnd.
  by rewrite toLowerCase_rev, toLowerCase_trimStart, toLowerCase_rev,
    toLowerCase_trimStart.
Qed.

Lemma trimStart_blank s :
  (∀ c, c ∈ list_ascii_of_string s → Js.isWhiteSpace c = true) →
  Js.trimStart s = "".
Proof.
  induction s as [|c s IH]; simpl; [done|]. intros H.
  rewrite (H c) by set_solver. apply IH. intros c' ?. apply H. set_solver.
Qed.

(** X2. A name made of blanks only, the empty name among them, is
    refused as too short whatever the tables hold: trimming leaves
    nothing of it. *)
Theorem blank_name_refused sid env raw roomId st :
  (∀ c, c ∈ list_ascii_of_string raw → Js.isWhiteSpace c = true) →
  standardize raw = "" ∧
  join_room sid env (Some raw) roomId st =
    Returned st [socket_emit sid (join_error msgTooShort)].
Proof.
  intros H.
  assert (standardize raw = "") as Hs.
  { unfold standardize, Js.trim. by rewrite (trimStart_blank _ H). }
  split; [done|]. unfold join_room. fold (standardize raw). by rewrite Hs.
Qed.

Lemma blank_name_refused_witness :
  standardize "        " = "" ∧
  join_room "s1" env0 (Some "        ") (Some "team") init =
    Returned init [socket_emit "s1" (join_error msgTooShort)].
Proof.
  apply (blank_name_refused "s1" env0 "        " (Some "team") init).
  intros c Hc. vm_compute in Hc.
  repeat (apply elem_of_cons in Hc as [->|Hc]; [reflexivity|]).
  by apply elem_of_nil in Hc.
Defined.

Lemma standardize_idemp raw : standardize (standardize raw) = standardize raw.
Proof.
  unfold standardize.
  by rewrite <- toLowerCase_trim, toLowerCase_idemp, trim_idemp.
Qed.

(** X3. Standardizing is idempotent, and it does not matter whether a
    name is trimmed or lower-cased first. *)
Theorem standardize_idempotent raw :
  standardize (standardize raw) = standardize raw ∧
  Js.toLowerCase (Js.trim raw) = Js.trim (Js.toLowerCase raw).
Proof. split; [apply standardize_idemp|apply toLowerCase_trim]. Qed.

(** ** Names in the tables *)

Section ObjMoreFacts.
Context {V : Type}.
Implicit Types (o : list (string * V)) (k : string) (v : V).

Lemma obj_get_None k o : Obj.get k o = None ↔ k ∉ Obj.keys o.
Proof.
  unfold Obj.keys. induction o as [|[k' v'] o IH]; simpl.
  - split; [intros _; apply not_elem_of_nil|done].
  - rewrite not_elem_of_cons. case_decide; naive_solver.
Qed.

Lemma obj_get_elem k v o : Obj.get k o = Some v → (k, v) ∈ o.
Proof.
  induction o as [|[k' v'] o IH]; simpl; [done|].
  case_decide; [intros [= ->]; subst; left|intros ?; right; auto].
Qed.

Lemma obj_elem_get k v o : NoDup (Obj.keys o) → (k, v) ∈ o → Obj.get k o = Some v.
Proof.
  unfold Obj.keys. induction o as [|[k' v'] o IH]; simpl.
  - intros _ H. by apply elem_of_nil in H.
  - intros Hnd H. apply NoDup_cons in Hnd as [Hk Hnd].
    apply elem_of_cons in H as [[= -> ->]|H].
    + by rewrite decide_True.
    + rewrite decide_False; [auto|]. intros ->. apply Hk.
      apply list_elem_of_fmap. by exists (k', v).
Qed.

Lemma obj_delete_elem k k' v o :
  (k', v) ∈ Obj.delete k o ↔ (k', v) ∈ o ∧ k' ≠ k.
Proof.
  induction o as [|[k0 v0] o IH]; simpl.
  - split; [intros H; by apply elem_of_nil in H|intros [H _]; by apply elem_of_nil in H].
  - case_decide as Hk; rewrite ?elem_of_cons, IH; naive_solver.
Qed.

Lemma obj_delete_keys k o :
  Obj.keys (Obj.delete k o) = filter (λ k', k' ≠ k) (Obj.keys o).
Proof.
  unfold Obj.keys. induction o as [|[k0 v0] o IH]; simpl; [done|].
  rewrite filter_cons. simpl. case_decide as Hk; subst.
  - by rewrite decide_False by naive_solver.
  - rewrite decide_True by naive_solver. simpl. by f_equal.
Qed.

Lemma obj_delete_fresh k o : Obj.get k o = None → Obj.delete k o = o.
Proof.
  induction o as [|[k0 v0] o IH]; simpl; [done|].
  case_decide; [done|]. intros ?. f_equal. auto.
Qed.

Lemma obj_delete_set_fresh k v o :
  Obj.get k o = None → Obj.delete k (Obj.set k v o) = o.
Proof.
  intros Hf. rewrite (obj_set_fresh _ _ _ Hf).
  induction o as [|[k0 v0] o IH]; simpl in *.
  - by rewrite decide_True.
  - case_decide; [done|]. f_equal. auto.
Qed.

End ObjMoreFacts.

Lemma namesWellFormed_init : namesWellFormed init.
Proof.
  split.
  - intros room r Hr. simpl in Hr.
    apply lookup_singleton_Some in Hr as [_ <-]. simpl.
    split; [constructor|]. intros u m H. by apply elem_of_nil in H.
  - intros sid userInfo Hs. simpl in Hs. by rewrite lookup_empty in Hs.
Qed.

(** A room keeps well-formed names when a fresh well-formed name is set
    and when a name is deleted. *)
Lemma names_set sid u (o : list (string * Member)) :
  validateUsername u = None →
  Obj.get u o = None →
  NoDup (Obj.keys o) ∧
    (∀ u' m, (u', m) ∈ o → member_username m = u' ∧ validateUsername u' = None) →
  NoDup (Obj.keys (Obj.set u {| socketId := sid; member_username := u |} o)) ∧
    (∀ u' m,
       (u', m) ∈ Obj.set u {| socketId := sid; member_username := u |} o →
       member_username m = u' ∧ validateUsername u' = None).
Proof.
  intros Hv Hf [Hnd Hall]. rewrite (obj_set_fresh _ _ _ Hf). split.
  - unfold Obj.keys. rewrite fmap_app. simpl. apply NoDup_app.
    split; [done|]. split; [|apply NoDup_singleton].
    intros k Hk ->%list_elem_of_singleton. by apply obj_get_None in Hf.
  - intros u' m [H|[= -> ->]%list_elem_of_singleton]%elem_of_app; auto.
Qed.

Lemma names_delete u (o : list (string * Member)) :
  NoDup (Obj.keys o) ∧
    (∀ u' m, (u', m) ∈ o → member_username m = u' ∧ validateUsername u' = None) →
  NoDup (Obj.keys (Obj.delete u o)) ∧
    (∀ u' m, (u', m) ∈ Obj.delete u o →
             member_username m = u' ∧ validateUsername u' = None).
Proof.
  intros [Hnd Hall]. split.
  - rewrite obj_delete_keys. by apply NoDup_filter.
  - intros u' m [H _]%obj_delete_elem. auto.
Qed.

(** Every handler that returns keeps the names well formed. *)
Lemma handle_namesWellFormed sid env ev st st' tr :
  roomsWellFormed st →
  namesWellFormed st →
  handle sid env ev st = Returned st' tr →
  namesWellFormed st'.
Proof.
  intros [_ Hw] [Hr Hi] Hh.
  destruct ev as [roomId|username roomId|md roomId|roomId|roomId|];
    simpl in Hh.
  - unfold check_room in Hh. destruct (roomsGet _ _); by simplify_eq.
  - unfold join_room in Hh. destruct username as [raw|]; [|done].
    destruct (validateUsername _) eqn:Hv; [by simplify_eq|].
    assert (resolveRoom roomId ≠ "") as Hne by apply resolveRoom_not_empty.
    destruct (roomsGet _ _) as [r0| |] eqn:Hg; [|done|]; simpl in Hh.
    + case_bool_decide as Ht; [by simplify_eq|]. simplify_eq.
      apply roomsGet_own_inv in Hg.
      assert (Obj.get (Js.toLowerCase (Js.trim raw)) (users r0) = None) as Hf.
      { destruct (Obj.get _ _) eqn:?; [|done]. destruct Ht; eauto. }
      split; simpl.
      * intros room r. destruct (decide (resolveRoom roomId = room)) as [<-|].
        -- rewrite lookup_insert_eq. intros [= <-]. simpl.
           apply names_set; eauto.
        -- rewrite lookup_insert_ne by done. apply Hr.
      * intros s ui. destruct (decide (sid = s)) as [<-|].
        -- rewrite lookup_insert_eq. intros [= <-]. simpl.
           destruct (Hw _ _ Hg) as (_ & ? & _). done.
        -- rewrite lookup_insert_ne by done. apply Hi.
    + simplify_eq. apply roomsGet_undefined_inv in Hg as [Hg Hproto].
      split; simpl.
      * intros room r. destruct (decide (resolveRoom roomId = room)) as [<-|].
        -- rewrite lookup_insert_eq. intros [= <-]. simpl.
           split; [apply NoDup_singleton|].
           by intros u m [= -> ->]%list_elem_of_singleton.
        -- rewrite lookup_insert_ne by done. apply Hr.
      * intros s ui. destruct (decide (sid = s)) as [<-|].
        -- rewrite lookup_insert_eq. by intros [= <-].
        -- rewrite lookup_insert_ne by done. apply Hi.
  - unfold send_message in Hh. destruct md as [md|]; [|by simplify_eq].
    destruct (_ && _ && _); [|by simplify_eq].
    destruct (roomsGet _ _) as [r0| |] eqn:Hg; [|done..].
    simplify_eq. apply roomsGet_own_inv in Hg. split; simpl; [|done].
    intros room r. destruct (decide (resolveRoom roomId = room)) as [<-|].
    + rewrite lookup_insert_eq. intros [= <-]. simpl. by eapply Hr.
    + rewrite lookup_insert_ne by done. apply Hr.
  - unfold typing in Hh. destruct (_ !! sid); [|by simplify_eq].
    destruct (roomsGet _ _); by simplify_eq.
  - unfold leave_room in Hh.
    destruct (_ !! sid) as [ui|] eqn:Hs; [|by simplify_eq].
    destruct (roomsGet _ _) as [r0| |] eqn:Hg; [|done|by simplify_eq].
    destruct (Obj.get _ _) as [m|] eqn:Hu; [|by simplify_eq].
    simplify_eq. apply roomsGet_own_inv in Hg. split; simpl.
    + intros room r. destruct (decide (resolveRoom roomId = room)) as [<-|].
      * rewrite cleanUp_lookup_eq. destruct (_ && _); [done|].
        intros [= <-]. simpl. apply names_delete. by eapply Hr.
      * rewrite cleanUp_lookup_ne by done. apply Hr.
    + intros s ui'. destruct (decide (sid = s)) as [<-|].
      * by rewrite lookup_delete_eq.
      * rewrite lookup_delete_ne by done. apply Hi.
  - unfold disconnect in Hh.
    destruct (_ !! sid) as [ui|] eqn:Hs; [|by simplify_eq].
    assert (∀ s ui', delete sid (socketToUserMap st) !! s = Some ui' →
              validateUsername (ui_username ui') = None ∧
              ui_room ui' ≠ "" ∧ (ui_room ui' ∉ Js.objectPrototypeKeys)) as Hi'.
    { intros s ui'. destruct (decide (sid = s)) as [<-|].
      - by rewrite lookup_delete_eq.
      - rewrite lookup_delete_ne by done. apply Hi. }
    destruct (roomsGet _ _) as [r0| |] eqn:Hg; [|done|by simplify_eq].
    destruct (Obj.get _ _) as [m|] eqn:Hu; [|by simplify_eq].
    simplify_eq. apply roomsGet_own_inv in Hg. split; simpl; [|done].
    intros room r. destruct (decide (ui_room ui = room)) as [<-|].
    + rewrite cleanUp_lookup_eq. destruct (_ && _); [done|].
      intros [= <-]. simpl. apply names_delete. by eapply Hr.
    + rewrite cleanUp_lookup_ne by done. apply Hr.
Qed.

Lemma reachable_namesWellFormed st : reachable st → namesWellFormed st.
Proof.
  induction 1 as [|st sid env ev st' tr Hreach IH Hstep];
    [apply namesWellFormed_init|].
  eapply handle_namesWellFormed; eauto using reachable_wellFormed.
Qed.

Lemma valid_name_not_inherited s :
  validateUsername s = None → s ∉ Js.objectPrototypeKeys.
Proof.
  intros Hv Hin. unfold Js.objectPrototypeKeys in Hin.
  repeat (apply elem_of_cons in Hin as [->|Hin]; [by vm_compute in Hv|]).
  by apply elem_of_nil in Hin.
Qed.

(** X4. In every reachable state the names in the tables are in order:
    within a room no name occurs twice, every member entry sits under
    its own name, and every name, in a room or in the index, passed
    [validateUsername] and so is not a property name of
    [Object.prototype]. *)
Theorem reachable_names st :
  reachable st →
  (∀ room r,
     rooms st !! room = Some r →
     NoDup (Obj.keys (users r)) ∧
     ∀ u m, Obj.get u (users r) = Some m →
            member_username m = u ∧ validateUsername u = None ∧
            (u ∉ Js.objectPrototypeKeys)) ∧
  (∀ sid userInfo,
     socketToUserMap st !! sid = Some userInfo →
     validateUsername (ui_username userInfo) = None ∧
     (ui_username userInfo ∉ Js.objectPrototypeKeys)).
Proof.
  intros [Hr Hi]%reachable_namesWellFormed. split.
  - intros room r Hroom. destruct (Hr _ _ Hroom) as [Hnd Hall].
    split; [done|]. intros u m Hm%obj_get_elem.
    destruct (Hall _ _ Hm) as [? ?].
    split_and!; try done. by apply valid_name_not_inherited.
  - intros sid userInfo Hs. destruct (Hi _ _ Hs) as (? & _ & _).
    split; [done|]. by apply valid_name_not_inherited.
Qed.

Lemma twoRooms_reachable : reachable (stateOf twoRooms).
Proof.
  eapply (reachable_step (stateOf aliceJoins) "s2" env0
            (EvJoinRoom (Some " Alice123! ") (Some "lobby")));
    [apply aliceJoins_reachable|reflexivity].
Qed.

Lemma reachable_names_witness :
  (NoDup (Obj.keys
            [("alice123!",
              {| socketId := "s2"; member_username := "alice123!" |})]) ∧
   (member_username {| socketId := "s2"; member_username := "alice123!" |} =
      "alice123!" ∧
    validateUsername "alice123!" = None ∧
    ("alice123!" ∉ Js.objectPrototypeKeys))) ∧
  (validateUsername
     (ui_username {| ui_username := "alice123!"; ui_room := "lobby" |}) = None ∧
   (ui_username {| ui_username := "alice123!"; ui_room := "lobby" |}
      ∉ Js.objectPrototypeKeys)).
Proof.
  destruct (reachable_names (stateOf twoRooms) twoRooms_reachable) as [Hr Hi].
  split.
  - destruct (Hr "lobby"
                {| users :=
                     [("alice123!",
                       {| socketId := "s2"; member_username := "alice123!" |})];
                   messages := [System (joinRecord "s2" env0 " Alice123! ")] |}
                eq_refl) as [Hnd Hall].
    split; [exact Hnd|]. apply (Hall "alice123!"). reflexivity.
  - apply (Hi "s2"). reflexivity.
Defined.

(** ** [check_room] *)

(** X5. [check_room] changes nothing, and in a reachable state, for a
    name that is not a property name of [Object.prototype], it makes
    exactly one call on the acknowledgement: with [true] exactly when
    the room is there and has a member, with [undefined] exactly when
    the room is not there, and with [false] only for the default room
    without members. *)
Theorem check_room_answer c roomId st :
  reachable st →
  resolveRoom roomId ∉ Js.objectPrototypeKeys →
  ∃ v,
    check_room c roomId st = Returned st [callback c v] ∧
    (v = ack_bool true ↔
       ∃ r, rooms st !! resolveRoom roomId = Some r ∧ users r ≠ []) ∧
    (v = ack_undefined ↔ rooms st !! resolveRoom roomId = None) ∧
    (v = ack_bool false →
       resolveRoom roomId = "public" ∧ memberList st "public" = []).
Proof.
  intros [_ Hw]%reachable_wellFormed Hproto. unfold check_room, memberList.
  destruct (rooms st !! resolveRoom roomId) as [r|] eqn:Hr.
  - rewrite (roomsGet_own _ _ _ Hr). eexists. split; [done|].
    rewrite obj_keys_length.
    destruct (Hw _ _ Hr) as (_ & _ & Hmem).
    destruct (users r) as [|e us] eqn:Hu; simpl.
    + destruct Hmem as [Hpub|?]; [|done]. rewrite Hpub in *.
      split; [split; [done|by intros (? & [= <-] & ?)]|].
      split; [done|]. intros _. by rewrite Hr, Hu.
    + split; [split; [intros _; exists r; by rewrite Hu|done]|]. done.
  - rewrite roomsGet_undefined by done. eexists. split; [done|].
    split; [split; [done|by intros (? & ? & _)]|]. done.
Qed.

Lemma check_room_answer_witness :
  ∃ v,
    check_room "s9" (Some "team") (stateOf aliceJoins) =
      Returned (stateOf aliceJoins) [callback "s9" v] ∧
    (v = ack_bool true ↔
       ∃ r, rooms (stateOf aliceJoins) !! resolveRoom (Some "team") = Some r ∧
            users r ≠ []) ∧
    (v = ack_undefined ↔
       rooms (stateOf aliceJoins) !! resolveRoom (Some "team") = None) ∧
    (v = ack_bool false →
       resolveRoom (Some "team") = "public" ∧
       memberList (stateOf aliceJoins) "public" = []).
Proof.
  apply (check_room_answer "s9" (Some "team") (stateOf aliceJoins)
           aliceJoins_reachable).
  vm_compute. intros H.
  repeat (apply elem_of_cons in H as [H|H]; [discriminate|]).
  by apply elem_of_nil in H.
Defined.

(** ** [disconnect] *)

(** X6. In a reachable state [disconnect] never throws, and it always
    leaves the socket without an index entry while every other
    socket's entry stays; for a socket without a session it does
    nothing at all. *)
Theorem disconnect_clears_index sid env st :
  reachable st →
  ∃ st' tr,
    disconnect sid env st = Returned st' tr ∧
    socketToUserMap st' = delete sid (socketToUserMap st) ∧
    (socketToUserMap st !! sid = None → st' = st ∧ tr = []).
Proof.
  intros [_ Hi]%reachable_namesWellFormed. unfold disconnect.
  destruct (socketToUserMap st !! sid) as [ui|] eqn:Hs.
  - destruct (Hi _ _ Hs) as (_ & _ & Hproto).
    destruct (roomsGet (rooms st) (ui_room ui)) as [r| |] eqn:Hg.
    + destruct (Obj.get _ _); eexists _, _; by split_and!.
    + apply roomsGet_inherited in Hg as [_ ?]. done.
    + eexists _, _. by split_and!.
  - eexists _, _. split; [done|]. split; [|done].
    symmetry. by apply delete_id.
Qed.

Lemma disconnect_clears_index_witness :
  ∃ st' tr,
    disconnect "s1" env1 (stateOf twoRooms) = Returned st' tr ∧
    socketToUserMap st' = delete "s1" (socketToUserMap (stateOf twoRooms)) ∧
    (socketToUserMap (stateOf twoRooms) !! "s1" = None →
       st' = stateOf twoRooms ∧ tr = []).
Proof.
  apply (disconnect_clears_index "s1" env1 (stateOf twoRooms)
           twoRooms_reachable).
Defined.

(** ** [typing] *)

(** X7. [typing] changes nothing.  A socket with a session sends one
    notice, carrying its socket id and the name of its session, when
    [rooms[room]] is truthy: when the named room is there, and also
    when the name is a property name of [Object.prototype].  The notice
    goes to every other socket in the transport room of that name and
    never to the sender; the named room need not be the room of the
    session.  A socket without a session, or a name under which
    [rooms] holds and inherits nothing, gives no call at all. *)
Theorem typing_notice sid roomId st :
  (∀ userInfo ad,
     socketToUserMap st !! sid = Some userInfo →
     roomsGet (rooms st) (resolveRoom roomId) ≠ Undefined →
     ∃ tr,
       typing sid roomId st = Returned st tr ∧
       tr = [socket_to_emit sid (resolveRoom roomId)
               (user_typing sid (ui_username userInfo))] ∧
       deliveries ad tr sid = [] ∧
       ∀ c, c ≠ sid → (c, resolveRoom roomId) ∈ ad →
            deliveries ad tr c = [user_typing sid (ui_username userInfo)]) ∧
  (socketToUserMap st !! sid = None ∨
     roomsGet (rooms st) (resolveRoom roomId) = Undefined →
   typing sid roomId st = Returned st []).
Proof.
  split.
  - intros userInfo ad Hs Hr. eexists. split; [|split; [reflexivity|]].
    + unfold typing. rewrite Hs. by destruct (roomsGet _ _).
    + split.
      * simpl. rewrite decide_False; [done|]. by intros [_ ?].
      * intros c Hc Hin. simpl. by rewrite decide_True.
  - unfold typing. intros [-> | ->]; [done|]. by destruct (_ !! sid).
Qed.

Lemma typing_notice_witness :
  (∃ tr,
     typing "s1" (Some "lobby") (stateOf twoRooms) =
       Returned (stateOf twoRooms) tr ∧
     tr = [socket_to_emit "s1" (resolveRoom (Some "lobby"))
             (user_typing "s1"
                (ui_username {| ui_username := "alice123!"; ui_room := "team" |}))] ∧
     deliveries {[ ("s1", "team"); ("s2", "lobby") ]} tr "s1" = [] ∧
     ∀ c, c ≠ "s1" →
          (c, resolveRoom (Some "lobby")) ∈
            ({[ ("s1", "team"); ("s2", "lobby") ]} : gset (string * string)) →
          deliveries {[ ("s1", "team"); ("s2", "lobby") ]} tr c =
            [user_typing "s1"
               (ui_username {| ui_username := "alice123!"; ui_room := "team" |})]) ∧
  (∃ tr,
     typing "s1" (Some "toString") (stateOf twoRooms) =
       Returned (stateOf twoRooms) tr ∧
     tr = [socket_to_emit "s1" (resolveRoom (Some "toString"))
             (user_typing "s1"
                (ui_username {| ui_username := "alice123!"; ui_room := "team" |}))] ∧
     deliveries ∅ tr "s1" = [] ∧
     ∀ c, c ≠ "s1" →
          (c, resolveRoom (Some "toString")) ∈ (∅ : gset (string * string)) →
          deliveries ∅ tr c =
            [user_typing "s1"
               (ui_username {| ui_username := "alice123!"; ui_room := "team" |})]) ∧
  typing "s5" (Some "lobby") (stateOf twoRooms) = Returned (stateOf twoRooms) [] ∧
  typing "s1" (Some "nowhere") (stateOf twoRooms) = Returned (stateOf twoRooms) [].
Proof.
  split_and!.
  - apply (proj1 (typing_notice "s1" (Some "lobby") (stateOf twoRooms))
             {| ui_username := "alice123!"; ui_room := "team" |});
      [reflexivity|vm_compute; discriminate].
  - apply (proj1 (typing_notice "s1" (Some "toString") (stateOf twoRooms))
             {| ui_username := "alice123!"; ui_room := "team" |});
      [reflexivity|vm_compute; discriminate].
  - apply (proj2 (typing_notice "s5" (Some "lobby") (stateOf twoRooms))).
    left. reflexivity.
  - apply (proj2 (typing_notice "s1" (Some "nowhere") (stateOf twoRooms))).
    right. reflexivity.
Defined.

(** ** Leaving *)

(** What a [leave_room] that made a call did to the index. *)
Lemma leave_room_acted sid env roomId st st' tr :
  leave_room sid env roomId st = Returned st' tr →
  tr ≠ [] →
  socketToUserMap st' = delete sid (socketToUserMap st).
Proof.
  unfold leave_room. intros Hl Htr.
  destruct (_ !! sid) as [ui|]; [|by simplify_eq].
  destruct (roomsGet _ _); [|done|by simplify_eq].
  destruct (Obj.get _ _); by simplify_eq.
Qed.

(** X8. Once a [leave_room] of a socket has gone through, the socket
    has no session: its further [leave_room], [typing] and [disconnect]
    events, whatever room they name, change nothing and call
    nothing. *)
Theorem leave_room_ends_session sid env roomId st st' tr :
  leave_room sid env roomId st = Returned st' tr →
  tr ≠ [] →
  socketToUserMap st' !! sid = None ∧
  ∀ env' roomId',
    leave_room sid env' roomId' st' = Returned st' [] ∧
    typing sid roomId' st' = Returned st' [] ∧
    disconnect sid env' st' = Returned st' [].
Proof.
  intros Hl Htr.
  assert (socketToUserMap st' !! sid = None) as Hs.
  { rewrite (leave_room_acted _ _ _ _ _ _ Hl Htr). apply lookup_delete_eq. }
  split; [done|]. intros env' roomId'.
  unfold leave_room, typing, disconnect. by rewrite Hs.
Qed.

Lemma leave_room_ends_session_witness :
  socketToUserMap (stateOf aliceLeaves) !! "s1" = None ∧
  ∀ env' roomId',
    leave_room "s1" env' roomId' (stateOf aliceLeaves) =
      Returned (stateOf aliceLeaves) [] ∧
    typing "s1" roomId' (stateOf aliceLeaves) =
      Returned (stateOf aliceLeaves) [] ∧
    disconnect "s1" env' (stateOf aliceLeaves) =
      Returned (stateOf aliceLeaves) [].
Proof.
  apply (leave_room_ends_session "s1" env1 (Some "team") (stateOf aliceJoins)
           (stateOf aliceLeaves)
           (traceOf (leave_room "s1" env1 (Some "team") (stateOf aliceJoins)))).
  - reflexivity.
  - vm_compute. discriminate.
Defined.

(** X9. For a socket whose session is a member of its room,
    [disconnect] and a [leave_room] that names the room of the session
    leave the same tables behind and announce the same record and the
    same member list; they differ in that [disconnect] keeps the record
    from the socket itself and does not call [socket.leave]. *)
Theorem disconnect_as_leave_room sid env st userInfo r m :
  socketToUserMap st !! sid = Some userInfo →
  ui_room userInfo ≠ "" →
  rooms st !! ui_room userInfo = Some r →
  Obj.get (ui_username userInfo) (users r) = Some m →
  ∃ st' record members,
    record = {| message := ui_username userInfo +:+ " left the chat";
                time := localTime env;
                sys_messageId := "system-" +:+ now env +:+ "-" +:+ sid |} ∧
    disconnect sid env st =
      Returned st'
        [ socket_to_emit sid (ui_room userInfo) (system_message record);
          io_to_emit (ui_room userInfo) (user_list members) ] ∧
    leave_room sid env (Some (ui_room userInfo)) st =
      Returned st'
        [ io_to_emit (ui_room userInfo) (system_message record);
          socket_leave sid (ui_room userInfo);
          io_to_emit (ui_room userInfo) (user_list members) ].
Proof.
  intros Hs Hne Hr Hu. eexists _, _, _. split; [reflexivity|].
  unfold disconnect, leave_room.
  rewrite Hs, (resolveRoom_name _ Hne), (roomsGet_own _ _ _ Hr), Hu.
  split; reflexivity.
Qed.

Lemma disconnect_as_leave_room_witness :
  ∃ st' record members,
    record = {| message :=
                  ui_username {| ui_username := "alice123!"; ui_room := "team" |}
                    +:+ " left the chat";
                time := localTime env1;
                sys_messageId := "system-" +:+ now env1 +:+ "-" +:+ "s1" |} ∧
    disconnect "s1" env1 (stateOf twoRooms) =
      Returned st'
        [ socket_to_emit "s1"
            (ui_room {| ui_username := "alice123!"; ui_room := "team" |})
            (system_message record);
          io_to_emit (ui_room {| ui_username := "alice123!"; ui_room := "team" |})
            (user_list members) ] ∧
    leave_room "s1" env1
      (Some (ui_room {| ui_username := "alice123!"; ui_room := "team" |}))
      (stateOf twoRooms) =
      Returned st'
        [ io_to_emit (ui_room {| ui_username := "alice123!"; ui_room := "team" |})
            (system_message record);
          socket_leave "s1"
            (ui_room {| ui_username := "alice123!"; ui_room := "team" |});
          io_to_emit (ui_room {| ui_username := "alice123!"; ui_room := "team" |})
            (user_list members) ].
Proof.
  apply (disconnect_as_leave_room "s1" env1 (stateOf twoRooms)
           {| ui_username := "alice123!"; ui_room := "team" |}
           {| users :=
                [("alice123!",
                  {| socketId := "s1"; member_username := "alice123!" |})];
              messages := [System (joinRecord "s1" env0 "alice123!")] |}
           {| socketId := "s1"; member_username := "alice123!" |}).
  - reflexivity.
  - simpl. discriminate.
  - reflexivity.
  - reflexivity.
Defined.

(** ** Joining and leaving again *)

(** X10. Take a room that, when it is there, is the default room or
    has a member and, when it is not there, is not the default room.  A
    socket without a session that joins it and then leaves it puts the
    index, the member list of the room and every other room back as
    they were.  A room that was there has gained the join and the leave
    record at the end of its history; a room the join created is gone
    again. *)
Theorem join_then_leave_room sid env env' username roomId st st1 tr1 :
  match rooms st !! resolveRoom roomId with
  | Some r => resolveRoom roomId = "public" ∨ users r ≠ []
  | None => resolveRoom roomId ≠ "public"
  end →
  socketToUserMap st !! sid = None →
  join_room sid env username roomId st = Returned st1 tr1 →
  In (socket_emit sid join_success) tr1 →
  ∃ raw st2 tr2,
    username = Some raw ∧
    leave_room sid env' roomId st1 = Returned st2 tr2 ∧
    socketToUserMap st2 = socketToUserMap st ∧
    memberList st2 (resolveRoom roomId) = memberList st (resolveRoom roomId) ∧
    (∀ other, other ≠ resolveRoom roomId →
              rooms st2 !! other = rooms st !! other) ∧
    (is_Some (rooms st !! resolveRoom roomId) →
       history st2 (resolveRoom roomId) =
         history st (resolveRoom roomId) ++
           [ System (joinRecord sid env raw);
             System {| message := standardize raw +:+ " left the chat";
                       time := localTime env';
                       sys_messageId := "system-" +:+ now env' +:+ "-" +:+ sid |} ]) ∧
    (rooms st !! resolveRoom roomId = None →
       rooms st2 !! resolveRoom roomId = None).
Proof.
  intros Hshape Hs Hj Hin.
  destruct (join_room_success _ _ _ _ _ _ _ Hj Hin)
    as (raw & r0 & -> & _ & Hroom & Hfree & _ & -> & ->).
  exists raw. unfold leave_room. simpl socketToUserMap. simpl rooms.
  rewrite lookup_insert_eq.
  rewrite (roomsGet_own _ _ (joinedRoom sid env raw r0))
    by apply lookup_insert_eq.
  simpl. rewrite obj_get_set_eq. eexists _, _. split; [done|].
  split; [reflexivity|]. simpl.
  rewrite obj_delete_set_fresh by done.
  split; [by apply delete_insert_id|].
  unfold memberList, history. simpl. rewrite cleanUp_lookup_eq. simpl.
  destruct Hroom as [Hr0|[Hundef ->]].
  - rewrite Hr0 in *. rename Hshape into Hmem.
    assert (bool_decide (resolveRoom roomId ≠ "public")
              && (length (users r0) =? 0) = false) as ->.
    { destruct Hmem as [->|Hmem]; [done|].
      destruct (users r0); [done|]. simpl. apply andb_false_r. }
    split; [done|]. split.
    + intros other Hne. rewrite cleanUp_lookup_ne by done.
      by rewrite lookup_insert_ne.
    + split; [|done]. intros _. by rewrite <- app_assoc.
  - apply roomsGet_undefined_inv in Hundef as [Hnone _]. rewrite Hnone in *.
    rewrite bool_decide_true by done. simpl.
    split; [done|]. split.
    + intros other Hne. rewrite cleanUp_lookup_ne by done.
      by rewrite lookup_insert_ne.
    + split; [by intros [? ?]|done].
Qed.

Lemma join_then_leave_room_witness :
  ∃ raw st2 tr2,
    Some "bobby45#" = Some raw ∧
    leave_room "s3" env1 (Some "team")
      (stateOf (join_room "s3" env1 (Some "bobby45#") (Some "team")
                  (stateOf aliceJoins))) =
      Returned st2 tr2 ∧
    socketToUserMap st2 = socketToUserMap (stateOf aliceJoins) ∧
    memberList st2 (resolveRoom (Some "team")) =
      memberList (stateOf aliceJoins) (resolveRoom (Some "team")) ∧
    (∀ other, other ≠ resolveRoom (Some "team") →
              rooms st2 !! other = rooms (stateOf aliceJoins) !! other) ∧
    (is_Some (rooms (stateOf aliceJoins) !! resolveRoom (Some "team")) →
       history st2 (resolveRoom (Some "team")) =
         history (stateOf aliceJoins) (resolveRoom (Some "team")) ++
           [ System (joinRecord "s3" env1 raw);
             System {| message := standardize raw +:+ " left the chat";
                       time := localTime env1;
                       sys_messageId := "system-" +:+ now env1 +:+ "-" +:+ "s3" |} ]) ∧
    (rooms (stateOf aliceJoins) !! resolveRoom (Some "team") = None →
       rooms st2 !! resolveRoom (Some "team") = None).
Proof.
  apply (join_then_leave_room "s3" env1 env1 (Some "bobby45#") (Some "team")
           (stateOf aliceJoins)
           (stateOf (join_room "s3" env1 (Some "bobby45#") (Some "team")
                       (stateOf aliceJoins)))
           (traceOf (join_room "s3" env1 (Some "bobby45#") (Some "team")
                       (stateOf aliceJoins)))).
  - right. simpl. discriminate.
  - reflexivity.
  - reflexivity.
  - vm_compute. auto 10.
Defined.

(** ** Member lists *)

(** X11. The member list a join broadcasts is the list of the room as
    it is afterwards: the members that were there, in their order,
    followed by the joiner under its standardized name. *)
Theorem join_appends_member sid env username roomId st st1 tr :
  join_room sid env username roomId st = Returned st1 tr →
  In (socket_emit sid join_success) tr →
  ∃ raw,
    username = Some raw ∧
    memberList st1 (resolveRoom roomId) =
      memberList st (resolveRoom roomId) ++
        [{| socketId := sid; member_username := standardize raw |}] ∧
    In (io_to_emit (resolveRoom roomId)
          (user_list (memberList st1 (resolveRoom roomId)))) tr.
Proof.
  intros Hj Hin.
  destruct (join_room_success _ _ _ _ _ _ _ Hj Hin)
    as (raw & r0 & -> & _ & Hroom & Hfree & _ & -> & ->).
  exists raw. split; [done|]. unfold memberList. simpl.
  rewrite lookup_insert_eq. simpl.
  rewrite (obj_set_fresh _ _ _ Hfree). unfold Obj.values.
  rewrite !fmap_app. simpl. split; [|auto 10].
  destruct Hroom as [->|[Hu ->]]; [done|].
  apply roomsGet_undefined_inv in Hu as [-> _]. done.
Qed.

Lemma join_appends_member_witness :
  ∃ raw,
    Some "bobby45#" = Some raw ∧
    memberList
      (stateOf (join_room "s3" env1 (Some "bobby45#") (Some "team")
                  (stateOf aliceJoins)))
      (resolveRoom (Some "team")) =
      memberList (stateOf aliceJoins) (resolveRoom (Some "team")) ++
        [{| socketId := "s3"; member_username := standardize raw |}] ∧
    In (io_to_emit (resolveRoom (Some "team"))
          (user_list
             (memberList
                (stateOf (join_room "s3" env1 (Some "bobby45#") (Some "team")
                            (stateOf aliceJoins)))
                (resolveRoom (Some "team")))))
       (traceOf (join_room "s3" env1 (Some "bobby45#") (Some "team")
                   (stateOf aliceJoins))).
Proof.
  apply (join_appends_member "s3" env1 (Some "bobby45#") (Some "team")
           (stateOf aliceJoins)).
  - reflexivity.
  - vm_compute. auto 10.
Defined.

Lemma obj_values_delete u (o : list (string * Member)) :
  (∀ u' m, (u', m) ∈ o → member_username m = u') →
  Obj.values (Obj.delete u o) =
    filter (λ m, member_username m ≠ u) (Obj.values o).
Proof.
  unfold Obj.values. induction o as [|[k m] o IH]; intros Hall; simpl; [done|].
  rewrite filter_cons. simpl.
  assert (member_username m = k) as Hk by (apply Hall; left).
  assert (∀ u' m', (u', m') ∈ o → member_username m' = u') as Hall'.
  { intros u' m' ?. apply Hall. by right. }
  destruct (decide (u = k)) as [->|Hne].
  - rewrite decide_False by (intros ?; congruence). auto.
  - rewrite decide_True by congruence. simpl. f_equal. auto.
Qed.

(** X12. In a reachable state, the member list that a [leave_room] or a
    [disconnect] broadcasts is the list of the room before with the
    entry of the leaving name taken out and every other member kept in
    its place. *)
Theorem leaving_removes_one_member sid env st userInfo room r m :
  reachable st →
  socketToUserMap st !! sid = Some userInfo →
  rooms st !! room = Some r →
  Obj.get (ui_username userInfo) (users r) = Some m →
  (∀ roomId st' tr,
     resolveRoom roomId = room →
     leave_room sid env roomId st = Returned st' tr →
     In (io_to_emit room
           (user_list
              (filter (λ m', member_username m' ≠ ui_username userInfo)
                 (memberList st room)))) tr) ∧
  (∀ st' tr,
     ui_room userInfo = room →
     disconnect sid env st = Returned st' tr →
     In (io_to_emit room
           (user_list
              (filter (λ m', member_username m' ≠ ui_username userInfo)
                 (memberList st room)))) tr).
Proof.
  intros [Hnames _]%reachable_namesWellFormed Hs Hr Hu.
  destruct (Hnames _ _ Hr) as [_ Hall].
  assert (Obj.values (Obj.delete (ui_username userInfo) (users r)) =
          filter (λ m', member_username m' ≠ ui_username userInfo)
            (memberList st room)) as Hlist.
  { unfold memberList. rewrite Hr. apply obj_values_delete.
    intros u' m' Hin. by destruct (Hall _ _ Hin). }
  split.
  - intros roomId st' tr <-. unfold leave_room.
    rewrite Hs, (roomsGet_own _ _ _ Hr), Hu. intros [= <- <-].
    simpl. rewrite Hlist. auto.
  - intros st' tr <-. unfold disconnect.
    rewrite Hs, (roomsGet_own _ _ _ Hr), Hu. intros [= <- <-].
    simpl. rewrite Hlist. auto.
Qed.

Lemma bobbyJoins_reachable : reachable (stateOf bobbyJoins).
Proof.
  eapply (reachable_step (stateOf aliceJoins) "s3" env1
            (EvJoinRoom (Some "bobby45#") (Some "team")));
    [apply aliceJoins_reachable|reflexivity].
Qed.

Lemma leaving_removes_one_member_witness :
  In (io_to_emit "team"
        (user_list
           (filter
              (λ m', member_username m' ≠
                     ui_username {| ui_username := "alice123!"; ui_room := "team" |})
              (memberList (stateOf bobbyJoins) "team"))))
     (traceOf (leave_room "s1" env1 (Some "team") (stateOf bobbyJoins))) ∧
  In (io_to_emit "team"
        (user_list
           (filter
              (λ m', member_username m' ≠
                     ui_username {| ui_username := "alice123!"; ui_room := "team" |})
              (memberList (stateOf bobbyJoins) "team"))))
     (traceOf (disconnect "s1" env1 (stateOf bobbyJoins))).
Proof.
  destruct (leaving_removes_one_member "s1" env1 (stateOf bobbyJoins)
              {| ui_username := "alice123!"; ui_room := "team" |} "team"
              {| users :=
                   [("alice123!",
                     {| socketId := "s1"; member_username := "alice123!" |});
                    ("bobby45#",
                     {| socketId := "s3"; member_username := "bobby45#" |})];
                 messages :=
                   [System (joinRecord "s1" env0 "alice123!");
                    System (joinRecord "s3" env1 "bobby45#")] |}
              {| socketId := "s1"; member_username := "alice123!" |}
              bobbyJoins_reachable eq_refl eq_refl eq_refl) as [Hl Hd].
  split.
  - apply (Hl (Some "team")
             (stateOf (leave_room "s1" env1 (Some "team") (stateOf bobbyJoins))));
      reflexivity.
  - apply (Hd (stateOf (disconnect "s1" env1 (stateOf bobbyJoins))));
      reflexivity.
Defined.

(** ** Messages in a row *)

Lemma send_messages_run roomId msgs : ∀ st r tr0,
  rooms st !! resolveRoom roomId = Some r →
  Forall (λ m, carriesAll (Some m.2)) msgs →
  run (sendEvents roomId msgs) st tr0 =
    Returned
      {| rooms :=
           <[ resolveRoom roomId :=
                setMessages r (messages r ++ (Chat <$> chatRecords msgs)) ]>
             (rooms st);
         socketToUserMap := socketToUserMap st |}
      (tr0 ++ ((λ m, io_to_emit (resolveRoom roomId) (receive_message m))
                 <$> chatRecords msgs)).
Proof.
  induction msgs as [|[[sid env] md] msgs IH]; intros st r tr0 Hr Hall.
  - simpl. rewrite !app_nil_r. f_equal. destruct st as [rs idx]. simpl in *.
    f_equal. destruct r. symmetry. by apply insert_id.
  - apply Forall_cons in Hall as [Hc Hall]. simpl in Hc.
    apply carriesAll_spec in Hc as (md' & [= <-] & Hv).
    change (sendEvents roomId ((sid, env, md) :: msgs))
      with ((sid, env, EvSendMessage (Some md) roomId) :: sendEvents roomId msgs).
    change (chatRecords ((sid, env, md) :: msgs))
      with (chatRecord sid env md :: chatRecords msgs).
    cbn [run handle]. unfold send_message at 1.
    rewrite Hv, (roomsGet_own _ _ _ Hr).
    rewrite (IH _ (setMessages r (messages r ++ [Chat (chatRecord sid env md)])))
      by (by simpl; rewrite ?lookup_insert_eq).
    simpl. rewrite insert_insert_eq, <- !app_assoc. reflexivity.
Qed.

(** X13. A batch of well-formed messages sent to a room that is there
    is stored at the end of the room's history in the order sent, each
    with its sender's socket id and server-built message id, and
    broadcast to the room in that order; the index, the members of the
    room and the other rooms stay as they are. *)
Theorem send_messages_in_order roomId msgs st r :
  rooms st !! resolveRoom roomId = Some r →
  Forall (λ m, carriesAll (Some m.2)) msgs →
  ∃ st',
    run (sendEvents roomId msgs) st [] =
      Returned st'
        ((λ m, io_to_emit (resolveRoom roomId) (receive_message m))
           <$> chatRecords msgs) ∧
    history st' (resolveRoom roomId) =
      history st (resolveRoom roomId) ++ (Chat <$> chatRecords msgs) ∧
    memberList st' (resolveRoom roomId) = memberList st (resolveRoom roomId) ∧
    socketToUserMap st' = socketToUserMap st ∧
    ∀ other, other ≠ resolveRoom roomId →
             rooms st' !! other = rooms st !! other.
Proof.
  intros Hr Hall. eexists. split.
  - by rewrite (send_messages_run roomId msgs st r []).
  - unfold history, memberList. simpl. rewrite lookup_insert_eq, Hr. simpl.
    split_and!; try done. intros other Hne. by rewrite lookup_insert_ne.
Qed.

Lemma send_messages_in_order_witness :
  ∃ st',
    run (sendEvents (Some "team")
           [ ("s1", env1, hello);
             ("s7", env1,
              {| md_username := Some "mallory"; md_message := Some "hi";
                 md_time := Some "10:01" |}) ])
        (stateOf aliceJoins) [] =
      Returned st'
        ((λ m, io_to_emit (resolveRoom (Some "team")) (receive_message m))
           <$> chatRecords
                 [ ("s1", env1, hello);
                   ("s7", env1,
                    {| md_username := Some "mallory"; md_message := Some "hi";
                       md_time := Some "10:01" |}) ]) ∧
    history st' (resolveRoom (Some "team")) =
      history (stateOf aliceJoins) (resolveRoom (Some "team")) ++
        (Chat <$> chatRecords
                    [ ("s1", env1, hello);
                      ("s7", env1,
                       {| md_username := Some "mallory"; md_message := Some "hi";
                          md_time := Some "10:01" |}) ]) ∧
    memberList st' (resolveRoom (Some "team")) =
      memberList (stateOf aliceJoins) (resolveRoom (Some "team")) ∧
    socketToUserMap st' = socketToUserMap (stateOf aliceJoins) ∧
    ∀ other, other ≠ resolveRoom (Some "team") →
             rooms st' !! other = rooms (stateOf aliceJoins) !! other.
Proof.
  apply (send_messages_in_order (Some "team") _ (stateOf aliceJoins)
           {| users :=
                [("alice123!",
                  {| socketId := "s1"; member_username := "alice123!" |})];
              messages := [System (joinRecord "s1" env0 "alice123!")] |}).
  - reflexivity.
  - repeat constructor; simpl.
    + by exists hello, "alice123!", "hello", "10:00".
    + eexists _, "mallory", "hi", "10:01". by split_and!.
Defined.

(** ** Who is where *)

(** X14. [check_room], [send_message] and [typing] never change who is
    where: after any of them the index is the same, every room has the
    same members, no room has appeared or gone, and no socket has been
    put into or taken out of a transport room. *)
Theorem membership_untouched sid env ev st st' tr :
  leavesMembership ev →
  handle sid env ev st = Returned st' tr →
  socketToUserMap st' = socketToUserMap st ∧
  (∀ room,
     memberList st' room = memberList st room ∧
     (is_Some (rooms st' !! room) ↔ is_Some (rooms st !! room))) ∧
  ∀ ad, adapterRun ad tr = ad.
Proof.
  intros Hev Hh.
  destruct ev as [roomId|username roomId|md roomId|roomId|roomId|];
    try done; simpl in Hh.
  - unfold check_room in Hh. destruct (roomsGet _ _); by simplify_eq.
  - unfold send_message in Hh. destruct md as [md|]; [|by simplify_eq].
    destruct (_ && _ && _); [|by simplify_eq].
    destruct (roomsGet _ _) as [r| |] eqn:Hg; [|done..].
    apply roomsGet_own_inv in Hg. simplify_eq. split; [done|].
    split; [|done]. intros room. unfold memberList. simpl.
    destruct (decide (resolveRoom roomId = room)) as [<-|].
    + rewrite lookup_insert_eq, Hg. simpl. split; [done|].
      by split; intros _; eexists.
    + by rewrite lookup_insert_ne.
  - unfold typing in Hh. destruct (_ !! sid); [|by simplify_eq].
    destruct (roomsGet _ _); by simplify_eq.
Qed.

Lemma membership_untouched_witness :
  socketToUserMap
    (stateOf (handle "s7" env1 (EvSendMessage (Some hello) (Some "team"))
                (stateOf aliceJoins))) =
    socketToUserMap (stateOf aliceJoins) ∧
  (∀ room,
     memberList
       (stateOf (handle "s7" env1 (EvSendMessage (Some hello) (Some "team"))
                   (stateOf aliceJoins))) room =
       memberList (stateOf aliceJoins) room ∧
     (is_Some
        (rooms
           (stateOf (handle "s7" env1 (EvSendMessage (Some hello) (Some "team"))
                       (stateOf aliceJoins))) !! room) ↔
      is_Some (rooms (stateOf aliceJoins) !! room))) ∧
  ∀ ad,
    adapterRun ad
      (traceOf (handle "s7" env1 (EvSendMessage (Some hello) (Some "team"))
                  (stateOf aliceJoins))) = ad.
Proof.
  apply (membership_untouched "s7" env1
           (EvSendMessage (Some hello) (Some "team")) (stateOf aliceJoins)).
  - exact I.
  - reflexivity.
Defined.

(** ** Runs *)





(** ** Events in order *)

Lemma inOrder_consistent st ad : reachableInOrder st ad → consistent st.
Proof.
  induction 1 as [|st ad sid env ev st' tr _ IH Hord Hh];
    [apply consistent_init|].
  by eapply handle_consistent.
Qed.

(** X16. When every socket joins only while it has no session and every
    [leave_room] names the room of the sender's session, the two tables
    agree in every state reached: each member entry is indexed under
    its socket with its name and room, each index entry has its member
    entry owned by that socket, and no socket owns two member
    entries. *)
Theorem tables_agree_in_order st ad :
  reachableInOrder st ad →
  consistent st ∧
  ∀ room1 r1 u1 m1 room2 r2 u2 m2,
    rooms st !! room1 = Some r1 → Obj.get u1 (users r1) = Some m1 →
    rooms st !! room2 = Some r2 → Obj.get u2 (users r2) = Some m2 →
    socketId m1 = socketId m2 →
    room1 = room2 ∧ u1 = u2.
Proof.
  intros Hc%inOrder_consistent. split; [done|].
  intros room1 r1 u1 m1 room2 r2 u2 m2 Hr1 Hu1 Hr2 Hu2 Hsock.
  destruct Hc as [Hm _].
  pose proof (Hm _ _ _ _ Hr1 Hu1) as H1.
  pose proof (Hm _ _ _ _ Hr2 Hu2) as H2.
  rewrite Hsock in H1. rewrite H1 in H2. by injection H2.
Qed.

Lemma orderlyRun_inOrder :
  reachableInOrder (stateOf orderlyRun) (adapterRun ∅ (traceOf orderlyRun)).
Proof.
  pose proof (inOrder_init ∅) as H0.
  pose proof (inOrder_step init ∅ "s1" env0
                (EvJoinRoom (Some "alice123!") (Some "team")) _ _
                H0 eq_refl eq_refl) as H1.
  pose proof (inOrder_step _ _ "s3" env1
                (EvJoinRoom (Some "bobby45#") (Some "team")) _ _
                H1 eq_refl eq_refl) as H2.
  assert (inOrder "s1" (EvLeaveRoom (Some "team")) (stateOf bobbyJoins)) as Hord.
  { intros userInfo Hs. vm_compute in Hs. by injection Hs as <-. }
  pose proof (inOrder_step _ _ "s1" env1 (EvLeaveRoom (Some "team")) _ _
                H2 Hord eq_refl) as H3.
  exact H3.
Qed.

Lemma tables_agree_in_order_witness :
  consistent (stateOf orderlyRun) ∧
  ∀ room1 r1 u1 m1 room2 r2 u2 m2,
    rooms (stateOf orderlyRun) !! room1 = Some r1 →
    Obj.get u1 (users r1) = Some m1 →
    rooms (stateOf orderlyRun) !! room2 = Some r2 →
    Obj.get u2 (users r2) = Some m2 →
    socketId m1 = socketId m2 →
    room1 = room2 ∧ u1 = u2.
Proof.
  apply (tables_agree_in_order (stateOf orderlyRun)
           (adapterRun ∅ (traceOf orderlyRun))).
  apply orderlyRun_inOrder.
Defined.

(** ** Spellings of a name *)

(** X18. Once a name is in a room, every spelling with the same
    standardized form is refused there as taken, from any socket and
    with the tables unchanged: the raw name again, its standardized
    form, and so a repeated join of the same socket. *)
Theorem spellings_collide sid env raw roomId st st1 tr :
  join_room sid env (Some raw) roomId st = Returned st1 tr →
  In (socket_emit sid join_success) tr →
  (∀ sid' env' raw',
     standardize raw' = standardize raw →
     join_room sid' env' (Some raw') roomId st1 =
       Returned st1 [socket_emit sid' (join_error msgTaken)]) ∧
  (∀ sid' env',
     join_room sid' env' (Some (standardize raw)) roomId st1 =
       Returned st1 [socket_emit sid' (join_error msgTaken)]).
Proof.
  intros Hj Hin.
  destruct (join_room_success _ _ _ _ _ _ _ Hj Hin)
    as (raw0 & r0 & [= <-] & Hv & _ & _ & _ & -> & _).
  assert (∀ sid' env' raw',
            standardize raw' = standardize raw →
            join_room sid' env' (Some raw') roomId
              {| rooms :=
                   <[resolveRoom roomId:=joinedRoom sid env raw r0]> (rooms st);
                 socketToUserMap :=
                   <[sid:={| ui_username := standardize raw;
                             ui_room := resolveRoom roomId |}]>
                     (socketToUserMap st) |} =
              Returned
                {| rooms :=
                     <[resolveRoom roomId:=joinedRoom sid env raw r0]> (rooms st);
                   socketToUserMap :=
                     <[sid:={| ui_username := standardize raw;
                               ui_room := resolveRoom roomId |}]>
                       (socketToUserMap st) |}
                [socket_emit sid' (join_error msgTaken)]) as Hall.
  { intros sid' env' raw' Heq. unfold join_room. fold (standardize raw').
    rewrite Heq, Hv.
    rewrite (roomsGet_own _ _ (joinedRoom sid env raw r0))
      by apply lookup_insert_eq.
    simpl. rewrite bool_decide_true; [done|].
    rewrite obj_get_set_eq. by eexists. }
  split; [done|]. intros sid' env'. apply Hall, standardize_idemp.
Qed.

Lemma spellings_collide_witness :
  (∀ sid' env' raw',
     standardize raw' = standardize " Alice123! " →
     join_room sid' env' (Some raw') (Some "lobby") (stateOf aliceCapsJoins) =
       Returned (stateOf aliceCapsJoins)
         [socket_emit sid' (join_error msgTaken)]) ∧
  (∀ sid' env',
     join_room sid' env' (Some (standardize " Alice123! ")) (Some "lobby")
       (stateOf aliceCapsJoins) =
       Returned (stateOf aliceCapsJoins)
         [socket_emit sid' (join_error msgTaken)]).
Proof.
  apply (spellings_collide "s2" env0 " Alice123! " (Some "lobby") init
           (stateOf aliceCapsJoins) (traceOf aliceCapsJoins)).
  - reflexivity.
  - vm_compute. auto 10.
Defined.

(** ** Room names inherited from [Object.prototype] *)

(** X20. A room name that is a property name of [Object.prototype],
    such as [constructor], is never a room of a reachable state, and
    naming it makes [check_room] throw, [join_room] throw for every
    well-formed username, [send_message] throw for every well-formed
    message, and [leave_room] throw for every socket with a session;
    [typing] by such a socket sends its notice to that name. *)
Theorem inherited_room_name_throws room st :
  reachable st →
  room ∈ Js.objectPrototypeKeys →
  rooms st !! room = None ∧
  (∀ c, check_room c (Some room) st = Thrown st []) ∧
  (∀ sid env raw,
     validateUsername (standardize raw) = None →
     join_room sid env (Some raw) (Some room) st = Thrown st []) ∧
  (∀ sid env messageData,
     carriesAll messageData →
     send_message sid env messageData (Some room) st = Thrown st []) ∧
  (∀ sid env userInfo,
     socketToUserMap st !! sid = Some userInfo →
     leave_room sid env (Some room) st = Thrown st [] ∧
     typing sid (Some room) st =
       Returned st
         [socket_to_emit sid room (user_typing sid (ui_username userInfo))]).
Proof.
  intros [_ Hw]%reachable_wellFormed Hproto.
  assert (room ≠ "") as Hne.
  { intros ->. unfold Js.objectPrototypeKeys in Hproto.
    repeat (apply elem_of_cons in Hproto as [Hproto|Hproto]; [discriminate|]).
    by apply elem_of_nil in Hproto. }
  assert (rooms st !! room = None) as Hnone.
  { destruct (rooms st !! room) as [r|] eqn:Hr; [|done].
    by destruct (Hw _ _ Hr) as (_ & ? & _). }
  assert (roomsGet (rooms st) room = Inherited) as Hg.
  { by apply roomsGet_inherited. }
  split; [done|]. split_and!.
  - intros c. unfold check_room. by rewrite resolveRoom_name, Hg.
  - intros sid env raw Hv. unfold join_room. fold (standardize raw).
    by rewrite Hv, resolveRoom_name, Hg.
  - intros sid env messageData (md & -> & Hall)%carriesAll_spec.
    unfold send_message. by rewrite Hall, resolveRoom_name, Hg.
  - intros sid env userInfo Hs. unfold leave_room, typing.
    by rewrite Hs, resolveRoom_name, Hg.
Qed.

Lemma inherited_room_name_throws_witness :
  rooms (stateOf aliceJoins) !! "constructor" = None ∧
  (∀ c, check_room c (Some "constructor") (stateOf aliceJoins) =
          Thrown (stateOf aliceJoins) []) ∧
  (∀ sid env raw,
     validateUsername (standardize raw) = None →
     join_room sid env (Some raw) (Some "constructor") (stateOf aliceJoins) =
       Thrown (stateOf aliceJoins) []) ∧
  (∀ sid env messageData,
     carriesAll messageData →
     send_message sid env messageData (Some "constructor") (stateOf aliceJoins) =
       Thrown (stateOf aliceJoins) []) ∧
  (∀ sid env userInfo,
     socketToUserMap (stateOf aliceJoins) !! sid = Some userInfo →
     leave_room sid env (Some "constructor") (stateOf aliceJoins) =
       Thrown (stateOf aliceJoins) [] ∧
     typing sid (Some "constructor") (stateOf aliceJoins) =
       Returned (stateOf aliceJoins)
         [socket_to_emit sid "constructor"
            (user_typing sid (ui_username userInfo))]).
Proof.
  apply (inherited_room_name_throws "constructor" (stateOf aliceJoins)
           aliceJoins_reachable).
  unfold Js.objectPrototypeKeys. apply elem_of_cons. by left.
Defined.

(** ** Message ids *)

Lemma append_cons c s t : String c s +:+ t = String c (s +:+ t).
Proof. reflexivity. Qed.

Lemma append_nil t : "" +:+ t = t.
Proof. reflexivity. Qed.

Lemma digits_dash_inj a a' b b' :
  (∀ c, c ∈ list_ascii_of_string a → Js.isDigit c = true) →
  (∀ c, c ∈ list_ascii_of_string a' → Js.isDigit c = true) →
  a +:+ "-" +:+ b = a' +:+ "-" +:+ b' →
  a = a' ∧ b = b'.
Proof.
  revert a'. induction a as [|c a IH]; intros [|c' a'] Ha Ha';
    rewrite ?append_cons, ?append_nil.
  - by intros [= ->].
  - intros [= <- _]. by specialize (Ha' "-"%char ltac:(left)).
  - intros [= -> _]. by specialize (Ha "-"%char ltac:(left)).
  - intros [= <- Heq]. destruct (IH a') as [-> ->]; [| |done|done].
    + intros c0 ?. apply Ha. by right.
    + intros c0 ?. apply Ha'. by right.
Qed.

(** X21. With clock readings in decimal, two chat records get the same
    message id exactly when they come from the same socket at the same
    clock reading, and likewise two system records; a chat record and a
    system record never share an id.  So ids are unique as far as no
    socket has two records of a kind within one clock reading. *)
Theorem message_ids_clash env env' sid sid' md md' raw userInfo :
  isDecimal (now env) →
  isDecimal (now env') →
  (messageId (chatRecord sid env md) = messageId (chatRecord sid' env' md') ↔
     now env = now env' ∧ sid = sid') ∧
  (sys_messageId (joinRecord sid env raw) =
     sys_messageId (leaveRecord sid' env' userInfo) ↔
     now env = now env' ∧ sid = sid') ∧
  messageId (chatRecord sid env md) ≠ sys_messageId (joinRecord sid' env' raw) ∧
  messageId (chatRecord sid env md) ≠
    sys_messageId (leaveRecord sid' env' userInfo).
Proof.
  intros [Hne Hd] [Hne' Hd']. simpl.
  assert (now env +:+ "-" +:+ sid ≠ "system-" +:+ now env' +:+ "-" +:+ sid')
    as Hdiff.
  { destruct (now env) as [|c s] eqn:Hn; [done|].
    rewrite !append_cons. intros [= -> _].
    by specialize (Hd "s"%char ltac:(left)). }
  split_and!; try done.
  - split; [by apply digits_dash_inj|]. by intros [-> ->].
  - rewrite !append_cons, append_nil. split; [|by intros [-> ->]].
    intros [= Heq]. by apply digits_dash_inj.
Qed.

Lemma message_ids_clash_witness :
  (messageId (chatRecord "s1" env0 hello) = messageId (chatRecord "s1" env0 hello) ↔
     now env0 = now env0 ∧ "s1" = "s1") ∧
  (sys_messageId (joinRecord "s1" env0 "alice123!") =
     sys_messageId
       (leaveRecord "s1" env0 {| ui_username := "alice123!"; ui_room := "team" |}) ↔
     now env0 = now env0 ∧ "s1" = "s1") ∧
  messageId (chatRecord "s1" env0 hello) ≠
    sys_messageId (joinRecord "s1" env0 "alice123!") ∧
  messageId (chatRecord "s1" env0 hello) ≠
    sys_messageId
      (leaveRecord "s1" env0 {| ui_username := "alice123!"; ui_room := "team" |}).
Proof.
  apply (message_ids_clash env0 env0 "s1" "s1" hello hello "alice123!"
           {| ui_username := "alice123!"; ui_room := "team" |}).
  - split; [discriminate|]. intros c Hc. vm_compute in Hc.
    repeat (apply elem_of_cons in Hc as [->|Hc]; [reflexivity|]).
    by apply elem_of_nil in Hc.
  - split; [discriminate|]. intros c Hc. vm_compute in Hc.
    repeat (apply elem_of_cons in Hc as [->|Hc]; [reflexivity|]).
    by apply elem_of_nil in Hc.
Defined.
